(** * keystone-nextjs-auth: the [createAuth] configuration composer

    A shallow embedding of [packages/keystone-nextjs-auth/src/index.ts].

    - JavaScript values that may be [undefined] are [option]s.
    - A function that may throw returns an [Outcome]; an [async] function,
      which may also talk to the outside (identity provider, database,
      the host application), is a computation [M World A] over the state
      [World] of that outside: a rejected promise is a [Throw].
    - Objects used as dictionaries ([lists], [fields]) are [gmap]s over
      their own keys; a read [o[k]] with a key chosen by the caller also
      finds what every object inherits from [Object.prototype].
    - Everything [createAuth] imports and this file does not contain
      ([url.parse], [new URL], [getSession], [JSON.stringify], the schema
      extension and the two file templates) is a field of [Collaborators]. *)

From Stdlib Require Import Ascii.
From stdpp Require Import gmap strings list.

Open Scope string_scope.

(** ** Completions: normal return or throw *)

Inductive JsError : Type :=
| TypeError (msg : string)
| Error (msg : string).

Inductive Outcome (A : Type) : Type :=
| Normal (a : A)
| Throw (e : JsError).
Arguments Normal {A} a.
Arguments Throw {A} e.

Definition outcome_bind {A B : Type} (f : A → Outcome B) (o : Outcome A) : Outcome B :=
  match o with
  | Normal a => f a
  | Throw e => Throw e
  end.

#[global] Instance Outcome_ret : MRet Outcome := λ A a, Normal a.
#[global] Instance Outcome_bind : MBind Outcome := λ A B f o, outcome_bind f o.

(** ** Asynchronous computations over the outside world *)

Definition M (World A : Type) : Type := World → Outcome A * World.

Definition ret {World A : Type} (a : A) : M World A := λ w, (Normal a, w).

Definition throw {World A : Type} (e : JsError) : M World A := λ w, (Throw e, w).

Definition bind {World A B : Type} (c : M World A) (k : A → M World B) : M World B :=
  λ w, match c w with
       | (Normal a, w') => k a w'
       | (Throw e, w') => (Throw e, w')
       end.

(** A synchronous result used inside an [async] function. *)
Definition lift {World A : Type} (o : Outcome A) : M World A := λ w, (o, w).

Declare Scope js_scope.
Delimit Scope js_scope with js.
Notation "'await' x <- c ; k" := (bind c (λ x, k))
  (at level 10, x name, c at level 100, k at level 200) : js_scope.

(** ** Strings *)

(** JavaScript truthiness of a string: only the empty string is falsy. *)
Definition truthy (s : string) : bool :=
  match s with
  | EmptyString => false
  | String _ _ => true
  end.

(** Truthiness of an optional string ([undefined] is falsy). *)
Definition truthy_opt (o : option string) : bool :=
  match o with
  | Some s => truthy s
  | None => false
  end.

(** [String.prototype.includes]: [search] occurs somewhere in [s]. *)
Fixpoint includes (s search : string) : bool :=
  String.prefix search s ||
  match s with
  | EmptyString => false
  | String _ s' => includes s' search
  end.

(** [a || b] on optional strings. *)
Definition or_else (a b : option string) : option string :=
  if truthy_opt a then a else b.

(** ** Data model *)

(** The request headers this module reads. *)
Record Headers : Type := {
  host : option string;
  x_forwarded_host : option string;
  referer : option string;
}.

(** Node's [IncomingMessage]: [url] is typed [string | undefined]. *)
Record IncomingMessage : Type := {
  url : option string;
  headers : Headers;
}.

(** What [new URL(s)] exposes of a parsed URL. *)
Record URL : Type := {
  URL_pathname : string;
  URL_host : string;
}.

(** A session value: an object, hence truthy whenever it is defined. *)
Record Session : Type := {
  session_props : list (string * string);
}.

Record AdminFileToWrite : Type := {
  mode : string;
  outputPath : string;
  src : string;
}.

Inductive PageMiddlewareResult : Type :=
| Redirect (to : string).

Record FieldConfig : Type := {
  field_type : string;
}.

Record ListConfig : Type := {
  fields : gmap string FieldConfig;
}.

Record AuthGqlNames : Type := {
  authenticateItemWithPassword : string;
  ItemAuthenticationWithPasswordResult : string;
  ItemAuthenticationWithPasswordSuccess : string;
  ItemAuthenticationWithPasswordFailure : string;
  CreateInitialInput : string;
  createInitialItem : string;
}.

(** The argument of [createAuth]. *)
Record AuthConfig : Type := {
  listKey : string;
  identityField : string;
  sessionData : option string;
  autoCreate : bool;
  userMap : list (string * string);
  accountMap : list (string * string);
  profileMap : list (string * string);
  keystonePath : string;
}.

Section HostTypes.

(** [World]: the state of everything outside this module.
    [GraphQLSchema]: the host's schema type, never inspected here. *)
Context {World GraphQLSchema : Type}.

(** The host's per-request context. [sudo_lists_count key] is
    [context.sudo().lists[key].count({})]. *)
Record KeystoneContext : Type := {
  req : option IncomingMessage;
  session : option Session;
  sudo_lists_count : string → M World nat;
}.

Record PageMiddlewareArgs : Type := {
  context : KeystoneContext;
  isValidSession : bool;
}.

(** The host's [SessionStrategy]: [start], [end] and [get]. *)
Record SessionStrategy : Type := {
  start : Session → M World string;
  end_ : option IncomingMessage → M World unit;
  get : option IncomingMessage → M World (option Session);
}.

(** The host's [AdminUIConfig]; [ui_other] holds the properties this
    module only copies. *)
Record AdminUIConfig : Type := {
  ui_publicPages : option (list string);
  ui_getAdditionalFiles : option (list (unit → list AdminFileToWrite));
  ui_pageMiddleware : option (PageMiddlewareArgs → M World (option PageMiddlewareResult));
  enableSessionItem : option bool;
  ui_isAccessAllowed : option (KeystoneContext → M World bool);
  ui_other : list (string * string);
}.

(** The host's [KeystoneConfig]; [config_other] holds the properties this
    module only copies. *)
Record KeystoneConfig : Type := {
  lists : gmap string ListConfig;
  ui : option AdminUIConfig;
  cfg_session : option SessionStrategy;
  cfg_extendGraphqlSchema : option (GraphQLSchema → GraphQLSchema);
  config_other : list (string * string);
}.

(** What [index.ts] imports. *)
Record Collaborators : Type := {
  (** [url.parse(u).pathname]; [None] is [null]. *)
  url_parse_pathname : string → option string;
  (** [new URL(s)]; [None] when the constructor throws. *)
  new_URL : string → option URL;
  (** [getSession({ req })] of next-auth; [None] is [null]. *)
  getSession : option IncomingMessage → M World (option Session);
  (** [JSON.stringify] on a string. *)
  JSON_stringify : string → string;
  (** [getSchemaExtension({ identityField, listKey, gqlNames })]. *)
  getSchemaExtension : string → string → AuthGqlNames → GraphQLSchema → GraphQLSchema;
  (** [authTemplate({ ... })] and [nextConfigTemplate({ keystonePath })]. *)
  authTemplate : AuthGqlNames → AuthConfig → string;
  nextConfigTemplate : string → string;
}.

End HostTypes.

Arguments KeystoneContext : clear implicits.
Arguments PageMiddlewareArgs : clear implicits.
Arguments SessionStrategy : clear implicits.
Arguments AdminUIConfig : clear implicits.
Arguments KeystoneConfig : clear implicits.
Arguments Collaborators : clear implicits.

(** ** [createAuth]

    The functions [createAuth] builds, closed over its argument [auth] and
    over the imports [env]. *)

(** The double-quote character of the error messages. *)
Definition dquote : string := String (Ascii.ascii_of_nat 34) EmptyString.

(** The two messages of [validateConfig]; [i] is
    [JSON.stringify(identityField)]. *)
Definition msg_list (listKey : string) : string :=
  "A createAuth() invocation specifies the list " +:+ dquote +:+ listKey +:+ dquote
  +:+ " but no list with that key has been defined.".

Definition msg_field (listKey i : string) : string :=
  "A createAuth() invocation for the " +:+ dquote +:+ listKey +:+ dquote
  +:+ " list specifies " +:+ i
  +:+ " as its identityField but no field with that key exists on the list.".

(** The property names every object inherits from [Object.prototype]. *)
Definition object_prototype_names : list string :=
  [ "constructor"; "__defineGetter__"; "__defineSetter__"; "hasOwnProperty";
    "__lookupGetter__"; "__lookupSetter__"; "isPrototypeOf"; "propertyIsEnumerable";
    "toString"; "valueOf"; "__proto__"; "toLocaleString" ].

Definition inherited (k : string) : bool :=
  bool_decide (k ∈ object_prototype_names).

(** What [o[k]] finds on a plain object [o]: an own property; a property
    inherited from [Object.prototype] (a built-in function, or the
    prototype itself under [__proto__]), which is not [undefined]; or
    nothing, which reads as [undefined]. *)
Inductive PropertyRead (A : Type) : Type :=
| Own (a : A)
| Inherited
| Missing.
Arguments Own {A} a.
Arguments Inherited {A}.
Arguments Missing {A}.

Definition read_property {A : Type} (o : gmap string A) (k : string) : PropertyRead A :=
  match o !! k with
  | Some a => Own a
  | None => if inherited k then Inherited else Missing
  end.

Section CreateAuth.

Context {World GraphQLSchema : Type}.
Variable env : Collaborators World GraphQLSchema.
Variable auth : AuthConfig.

Definition gqlNames : AuthGqlNames := {|
  authenticateItemWithPassword := "authenticate" +:+ listKey auth +:+ "WithPassword";
  ItemAuthenticationWithPasswordResult := listKey auth +:+ "AuthenticationWithPasswordResult";
  ItemAuthenticationWithPasswordSuccess := listKey auth +:+ "AuthenticationWithPasswordSuccess";
  ItemAuthenticationWithPasswordFailure := listKey auth +:+ "AuthenticationWithPasswordFailure";
  CreateInitialInput := "CreateInitial" +:+ listKey auth +:+ "Input";
  createInitialItem := "createInitial" +:+ listKey auth;
|}.

(** [url.parse(req?.url!).pathname!]: [url.parse] throws on [undefined];
    the pathname may be [null] ([None]). *)
Definition request_pathname (r : option IncomingMessage) : Outcome (option string) :=
  match r ≫= url with
  | Some u => Normal (url_parse_pathname env u)
  | None => Throw (TypeError "The url argument must be of type string")
  end.

(** [pathname.includes(search)], which throws on a [null] pathname. *)
Definition pathname_includes (pathname : option string) (search : string) : Outcome bool :=
  match pathname with
  | Some p => Normal (includes p search)
  | None => Throw (TypeError "Cannot read property includes of null")
  end.

Definition pageMiddleware (args : PageMiddlewareArgs World)
  : M World (option PageMiddlewareResult) :=
  lift (
    pathname ← request_pathname (req (context args));
    if isValidSession args then
      if decide (pathname = Some (keystonePath auth +:+ "/api/auth/signin"))
      then Normal (Some (Redirect (keystonePath auth)))
      else Normal None
    else
      match session (context args) with
      | Some _ => Normal None
      | None =>
          inc ← pathname_includes pathname (keystonePath auth +:+ "/api/auth/");
          if negb inc
          then Normal (Some (Redirect (keystonePath auth +:+ "/api/auth/signin")))
          else Normal None
      end).

Definition getAdditionalFiles (_ : unit) : list AdminFileToWrite :=
  [ {| mode := "write";
       outputPath := "pages/api/auth/[...nextauth].js";
       src := authTemplate env gqlNames auth |};
    {| mode := "write";
       outputPath := "next.config.js";
       src := nextConfigTemplate env (keystonePath auth) |} ].

Definition publicPages : list string :=
  [ keystonePath auth +:+ "/api/auth/csrf";
    keystonePath auth +:+ "/api/auth/signin";
    keystonePath auth +:+ "/api/auth/signin/auth0";
    keystonePath auth +:+ "/api/auth/callack";
    keystonePath auth +:+ "/api/auth/callback/auth0";
    keystonePath auth +:+ "/api/auth/session";
    keystonePath auth +:+ "/api/auth/providers";
    keystonePath auth +:+ "/api/auth/signout" ].

Definition extendGraphqlSchema : GraphQLSchema → GraphQLSchema :=
  getSchemaExtension env (identityField auth) (listKey auth) gqlNames.

(** [lists[listKey]] and [fields[identityField]] are property reads: an
    inherited name is not [undefined]. An inherited [listConfig] has no
    [fields], so the read of [fields[identityField]] throws. *)
Definition validateConfig (keystoneConfig : KeystoneConfig World GraphQLSchema)
  : Outcome unit :=
  match read_property (lists keystoneConfig) (listKey auth) with
  | Missing => Throw (Error (msg_list (listKey auth)))
  | Inherited => Throw (TypeError "Cannot read property of undefined")
  | Own listConfig =>
      match read_property (fields listConfig) (identityField auth) with
      | Missing =>
          let i := JSON_stringify env (identityField auth) in
          Throw (Error (msg_field (listKey auth) i))
      | Own _ | Inherited => Normal ()
      end
  end.

Definition withItemData (_sessionStrategy : SessionStrategy World)
  : SessionStrategy World := {|
  start := start _sessionStrategy;
  end_ := end_ _sessionStrategy;
  get := λ r,
    (await pathname <- lift (request_pathname r);
     await inc <- lift (pathname_includes pathname "/api/auth");
     if inc : bool then ret None
     else
       await nextSession <- getSession env r;
       match nextSession with
       | Some s => ret (Some s)
       | None => ret None
       end)%js;
|}.

(** [headers['x-forwarded-host'] || headers.host], or [null] without
    headers. *)
Definition request_host (hs : option Headers) : option string :=
  match hs with
  | Some h => or_else (x_forwarded_host h) (host h)
  | None => None
  end.

(** [headers?.referer ? new URL(headers.referer) : undefined]. *)
Definition thisUrl (hs : option Headers) : Outcome (option URL) :=
  match hs ≫= referer with
  | Some r =>
      if truthy r then
        match new_URL env r with
        | Some u => Normal (Some u)
        | None => Throw (TypeError "Invalid URL")
        end
      else Normal None
  | None => Normal None
  end.

(** The [accessingInitPage] constant of the composed [isAccessAllowed]:
    the count is only awaited when the two comparisons succeed. *)
Definition accessingInitPage (ctx : KeystoneContext World) : M World bool :=
  let hs := headers <$> req ctx in
  let host := request_host hs in
  (await u <- lift (thisUrl hs);
   if bool_decide (URL_pathname <$> u = Some "/init")
      && bool_decide (URL_host <$> u = host)
   then
     await n <- sudo_lists_count ctx (listKey auth);
     ret (bool_decide (n = 0))
   else ret false)%js.

(** The [ui.isAccessAllowed] that [withAuth] installs. *)
Definition isAccessAllowed (keystoneConfig : KeystoneConfig World GraphQLSchema)
    (ctx : KeystoneContext World) : M World bool :=
  (await init <- accessingInitPage ctx;
   if init : bool then ret true
   else
     match ui keystoneConfig ≫= ui_isAccessAllowed with
     | Some callerIsAccessAllowed => callerIsAccessAllowed ctx
     | None => ret (bool_decide (session ctx ≠ None))
     end)%js.

(** The [ui.pageMiddleware] that [withAuth] installs:
    [(await pageMiddleware(args)) ?? keystoneConfig?.ui?.pageMiddleware?.(args)]. *)
Definition composedPageMiddleware (keystoneConfig : KeystoneConfig World GraphQLSchema)
    (args : PageMiddlewareArgs World) : M World (option PageMiddlewareResult) :=
  (await r <- pageMiddleware args;
   match r with
   | Some redirect => ret (Some redirect)
   | None =>
       match ui keystoneConfig ≫= ui_pageMiddleware with
       | Some callerPageMiddleware => callerPageMiddleware args
       | None => ret None
       end
   end)%js.

Definition withAuth (keystoneConfig : KeystoneConfig World GraphQLSchema)
  : Outcome (KeystoneConfig World GraphQLSchema) :=
  _ ← validateConfig keystoneConfig;
  let ui' :=
    match ui keystoneConfig with
    | Some callerUi =>
        Some {|
          ui_publicPages := Some (default [] (ui_publicPages callerUi) ++ publicPages)%list;
          ui_getAdditionalFiles :=
            Some (default [] (ui_getAdditionalFiles callerUi) ++ [getAdditionalFiles])%list;
          ui_pageMiddleware := Some (composedPageMiddleware keystoneConfig);
          enableSessionItem := Some true;
          ui_isAccessAllowed := Some (isAccessAllowed keystoneConfig);
          ui_other := ui_other callerUi;
        |}
    | None => None
    end in
  let session' :=
    match cfg_session keystoneConfig with
    | Some s => if truthy_opt (sessionData auth) then Some (withItemData s) else Some s
    | None => None
    end in
  let existingExtendGraphQLSchema := cfg_extendGraphqlSchema keystoneConfig in
  Normal {|
    lists := lists keystoneConfig;
    ui := ui';
    cfg_session := session';
    cfg_extendGraphqlSchema :=
      Some match existingExtendGraphQLSchema with
           | Some existing => λ schema, existing (extendGraphqlSchema schema)
           | None => extendGraphqlSchema
           end;
    config_other := config_other keystoneConfig;
  |}.

End CreateAuth.

(** ** The specification's reading of the composition *)

(** The Access Decision Engine as the specification words it: a decision
    over the request path and the validity flag only, with "under the
    auth-API prefix" read as "starts with". *)
Definition spec_decide (mountPath pathname : string) (valid : bool)
  : option PageMiddlewareResult :=
  if valid then
    if decide (pathname = mountPath +:+ "/api/auth/signin")
    then Some (Redirect mountPath)
    else None
  else
    if String.prefix (mountPath +:+ "/api/auth/") pathname
    then None
    else Some (Redirect (mountPath +:+ "/api/auth/signin")).

(** The eight identity-provider routes as the specification lists them. *)
Definition spec_publicPages (mountPath provider : string) : list string :=
  [ mountPath +:+ "/api/auth/csrf";
    mountPath +:+ "/api/auth/signin";
    mountPath +:+ "/api/auth/signin/" +:+ provider;
    mountPath +:+ "/api/auth/callback";
    mountPath +:+ "/api/auth/callback/" +:+ provider;
    mountPath +:+ "/api/auth/session";
    mountPath +:+ "/api/auth/providers";
    mountPath +:+ "/api/auth/signout" ].

(** The order of schema extensions as the specification words it: the
    caller's extension first, this module's on its result. *)
Definition spec_composedExtension {GraphQLSchema : Type}
    (caller system : GraphQLSchema → GraphQLSchema) : GraphQLSchema → GraphQLSchema :=
  λ schema, system (caller schema).

(** The three conditions of the bootstrap carve-out, with the count taken
    in the world [w]; the request's host is [request_host]. *)
Definition bootstrap_window {World GraphQLSchema : Type}
    (env : Collaborators World GraphQLSchema) (auth : AuthConfig)
    (ctx : KeystoneContext World) (w : World) : Prop :=
  ∃ (r : string) (u : URL),
    (headers <$> req ctx) ≫= referer = Some r ∧ truthy r = true ∧
    new_URL env r = Some u ∧
    URL_pathname u = "/init" ∧
    request_host (headers <$> req ctx) = Some (URL_host u) ∧
    (sudo_lists_count ctx (listKey auth) w).1 = Normal 0.

(** What the composed [isAccessAllowed] falls back on: the caller's
    predicate run in the world [w], or else a defined session. *)
Definition fallback_allows {World GraphQLSchema : Type}
    (keystoneConfig : KeystoneConfig World GraphQLSchema)
    (ctx : KeystoneContext World) (w : World) : Prop :=
  match ui keystoneConfig ≫= ui_isAccessAllowed with
  | Some callerIsAccessAllowed => (callerIsAccessAllowed ctx w).1 = Normal true
  | None => session ctx ≠ None
  end.

(** ** A concrete deployment, for the examples *)

(** Splits a string at the first character satisfying [stop]. *)
Fixpoint split_at (stop : Ascii.ascii → bool) (s : string) : string * string :=
  match s with
  | EmptyString => (EmptyString, EmptyString)
  | String c s' =>
      if stop c then (EmptyString, s)
      else let '(a, b) := split_at stop s' in (String c a, b)
  end.

Definition is_query_or_hash (c : Ascii.ascii) : bool :=
  bool_decide (c = "?"%char) || bool_decide (c = "#"%char).

Definition is_path_query_or_hash (c : Ascii.ascii) : bool :=
  bool_decide (c = "/"%char) || is_query_or_hash c.

(** [url.parse(u).pathname] on an origin-form request target
    ([/path?query]) of characters that need no escaping: the part before
    the first [?] or [#], [null] when that part is empty. *)
Definition origin_form_pathname (u : string) : option string :=
  let p := (split_at is_query_or_hash u).1 in
  if truthy p then Some p else None.

(** Drops [scheme://] from the front of an absolute URL. *)
Fixpoint after_scheme (s : string) : option string :=
  match s with
  | EmptyString => None
  | String c s' =>
      if String.prefix "://" s
      then Some (String.substring 3 (String.length s) s)
      else after_scheme s'
  end.

(** [new URL(s)] on [http://host[:port]/path?query#fragment] with a
    lower-case host, no credentials and a path in normal form; anything
    without [://] is rejected. *)
Definition simple_URL (s : string) : option URL :=
  rest ← after_scheme s;
  let '(h, tail) := split_at is_path_query_or_hash rest in
  let p := (split_at is_query_or_hash tail).1 in
  Some {| URL_pathname := if truthy p then p else "/"; URL_host := h |}.

(** An identity provider that has the session [s] for every request; the
    world counts the lookups made. *)
Definition counting_getSession (s : option Session)
  : option IncomingMessage → M nat (option Session) :=
  λ _ w, (Normal s, S w).

Definition alice : Session := {| session_props := [("user", "alice")] |}.

Definition env0 : Collaborators nat (list string) := {|
  url_parse_pathname := origin_form_pathname;
  new_URL := simple_URL;
  getSession := counting_getSession (Some alice);
  JSON_stringify := λ s, dquote +:+ s +:+ dquote;
  getSchemaExtension := λ _ _ names schema,
    (schema ++ [authenticateItemWithPassword names; createInitialItem names])%list;
  authTemplate := λ _ _, "auth";
  nextConfigTemplate := λ _, "next";
|}.

Definition auth0 : AuthConfig := {|
  listKey := "User";
  identityField := "email";
  sessionData := Some "id name";
  autoCreate := true;
  userMap := [];
  accountMap := [];
  profileMap := [];
  keystonePath := "";
|}.

(** The same with a mount path. *)
Definition auth_admin : AuthConfig := {|
  listKey := "User";
  identityField := "email";
  sessionData := None;
  autoCreate := false;
  userMap := [];
  accountMap := [];
  profileMap := [];
  keystonePath := "/admin";
|}.

(** Two configurations that name no list and no field of [config0], under
    names every object inherits. *)
Definition auth_toString : AuthConfig := {|
  listKey := "User";
  identityField := "toString";
  sessionData := None;
  autoCreate := false;
  userMap := [];
  accountMap := [];
  profileMap := [];
  keystonePath := "";
|}.

Definition auth_constructor : AuthConfig := {|
  listKey := "constructor";
  identityField := "email";
  sessionData := None;
  autoCreate := false;
  userMap := [];
  accountMap := [];
  profileMap := [];
  keystonePath := "";
|}.

Definition userList : ListConfig :=
  {| fields := {[ "email" := {| field_type := "text" |} ]} |}.

Definition get_request (target : string) (ref : option string) : IncomingMessage :=
  {| url := Some target;
     headers := {| host := Some "localhost:3000"; x_forwarded_host := None; referer := ref |} |}.

(** A context whose privileged count finds [n] items. *)
Definition context0 (r : IncomingMessage) (s : option Session) (n : nat)
  : KeystoneContext nat :=
  {| req := Some r; session := s; sudo_lists_count := λ _, ret n |}.

Definition callerMiddleware : PageMiddlewareArgs nat → M nat (option PageMiddlewareResult) :=
  λ _, ret (Some (Redirect "/maintenance")).

Definition callerStrategy : SessionStrategy nat := {|
  start := λ _, ret "token";
  end_ := λ _, ret ();
  get := λ _, ret None;
|}.

Definition callerExtension : list string → list string :=
  λ schema, (schema ++ ["X"])%list.

Definition callerUi0 : AdminUIConfig nat := {|
  ui_publicPages := Some ["/welcome"; "/about"];
  ui_getAdditionalFiles := None;
  ui_pageMiddleware := Some callerMiddleware;
  enableSessionItem := None;
  ui_isAccessAllowed := None;
  ui_other := [];
|}.

Definition config0 : KeystoneConfig nat (list string) := {|
  lists := {[ "User" := userList ]};
  ui := Some callerUi0;
  cfg_session := Some callerStrategy;
  cfg_extendGraphqlSchema := Some callerExtension;
  config_other := [("db", "sqlite")];
|}.

(** The same configuration without a [ui] sub-config. *)
Definition config_noui : KeystoneConfig nat (list string) := {|
  lists := lists config0;
  ui := None;
  cfg_session := cfg_session config0;
  cfg_extendGraphqlSchema := cfg_extendGraphqlSchema config0;
  config_other := config_other config0;
|}.

(** A [ui] sub-config without a middleware of its own, with one file
    generator, and with [enableSessionItem] switched off. *)
Definition callerFiles (_ : unit) : list AdminFileToWrite :=
  [ {| mode := "write"; outputPath := "pages/custom.js"; src := "custom" |} ].

Definition callerUi_plain : AdminUIConfig nat := {|
  ui_publicPages := None;
  ui_getAdditionalFiles := Some [callerFiles];
  ui_pageMiddleware := None;
  enableSessionItem := Some false;
  ui_isAccessAllowed := None;
  ui_other := [("path", "/admin")];
|}.

Definition config_plain : KeystoneConfig nat (list string) := {|
  lists := lists config0;
  ui := Some callerUi_plain;
  cfg_session := None;
  cfg_extendGraphqlSchema := None;
  config_other := [];
|}.

(** A caller's predicate that refuses everybody and leaves a trace of its
    run in the world. *)
Definition callerPredicate : KeystoneContext nat → M nat bool :=
  λ _ w, (Normal false, w + 100).

Definition config_predicate : KeystoneConfig nat (list string) := {|
  lists := lists config0;
  ui := Some {| ui_publicPages := None;
                ui_getAdditionalFiles := None;
                ui_pageMiddleware := None;
                enableSessionItem := None;
                ui_isAccessAllowed := Some callerPredicate;
                ui_other := [] |};
  cfg_session := None;
  cfg_extendGraphqlSchema := None;
  config_other := [];
|}.

(** A context whose privileged count fails. *)
Definition context_db_down (r : IncomingMessage) (s : option Session) : KeystoneContext nat :=
  {| req := Some r; session := s;
     sudo_lists_count := λ _ w, (Throw (Error "database unavailable"), S w) |}.

(** ** Object identity: [withAuth] on the JavaScript heap

    The definitions above treat a configuration as a value. Whether
    [withAuth] writes to the caller's objects is a question about
    references, so the same function is given once more over a heap of
    objects: every object, array and function literal allocates, a spread
    copies own properties, and the closures keep the reference to
    [keystoneConfig] they capture. A property read sees the own
    properties of a plain object and, after them, what every object
    inherits from [Object.prototype]; the further properties of arrays
    and functions (indices, [length], their own prototypes) are not
    modelled, no read of a typed configuration reaches them. Only arrays
    are iterable. *)

(** JavaScript values; [VBuiltin name] is the built-in function or object
    read as the inherited property [name]. *)
Inductive Value : Type :=
| VUndefined
| VNull
| VBool (b : bool)
| VNumber (n : Z)
| VString (s : string)
| VRef (l : positive)
| VBuiltin (name : string).

(** Function objects: the host's own, and the closures [withAuth] and
    [withItemData] create. *)
Inductive Closure : Type :=
| HostFunction (name : string)
| ComposedPageMiddleware (keystoneConfig : Value)
| ComposedIsAccessAllowed (keystoneConfig : Value)
| WrappedGet
| ComposedExtendGraphqlSchema (existing : Value).

Inductive Object : Type :=
| Obj (props : gmap string Value)
| Arr (elems : list Value)
| Fun (c : Closure).

(** The function objects [createAuth] itself creates, once. *)
Record CreateAuthClosures : Type := {
  getAdditionalFiles_fn : Value;
  extendGraphqlSchema_fn : Value;
}.

Module OnHeap.

Abbreviation Heap := (gmap positive Object).

Definition truthy_value (v : Value) : bool :=
  match v with
  | VUndefined | VNull => false
  | VBool b => b
  | VNumber n => negb (n =? 0)%Z
  | VString s => truthy s
  | VRef _ | VBuiltin _ => true
  end.

(** A literal: a new object at a location the heap does not use. *)
Definition alloc (o : Object) : M Heap Value :=
  λ h, let l := fresh (dom h) in (Normal (VRef l), <[l := o]> h).

(** The own properties of the plain object [v] refers to in [h]. *)
Definition props_at (h : Heap) (v : Value) : option (gmap string Value) :=
  match v with
  | VRef l =>
      match h !! l with
      | Some (Obj props) => Some props
      | _ => None
      end
  | _ => None
  end.

(** [v.k] / [v[k]]: a [TypeError] on [undefined] and [null]; an own
    property; else the built-in inherited under a name of
    [Object.prototype]; else [undefined]. *)
Definition get_prop (v : Value) (k : string) : M Heap Value :=
  λ h, (match v with
        | VUndefined | VNull => Throw (TypeError "Cannot read property of undefined")
        | _ =>
            Normal (match props_at h v ≫= (.!! k) with
                    | Some x => x
                    | None => if inherited k then VBuiltin k else VUndefined
                    end)
        end, h).

(** The properties [{ ...v }] copies. *)
Definition own_props (v : Value) : M Heap (gmap string Value) :=
  λ h, (Normal (default ∅ (props_at h v)), h).

(** The elements of the array [v] refers to in [h]. *)
Definition elems_at (h : Heap) (v : Value) : option (list Value) :=
  match v with
  | VRef l =>
      match h !! l with
      | Some (Arr elems) => Some elems
      | _ => None
      end
  | _ => None
  end.

(** The elements [[ ...v ]] copies. *)
Definition iterate (v : Value) : M Heap (list Value) :=
  λ h, (match elems_at h v with
        | Some elems => Normal elems
        | None => Throw (TypeError "object is not iterable")
        end, h).

(** [v || []]. *)
Definition or_empty_array (v : Value) : M Heap Value :=
  if truthy_value v then ret v else alloc (Arr []).

Section CreateAuth.

Variable auth : AuthConfig.
(** [JSON.stringify] on a string. *)
Variable stringify : string → string.
Variable fns : CreateAuthClosures.

Definition validateConfig (keystoneConfig : Value) : M Heap unit :=
  (await listsObj <- get_prop keystoneConfig "lists";
   await listConfig <- get_prop listsObj (listKey auth);
   match listConfig with
   | VUndefined => throw (Error (msg_list (listKey auth)))
   | _ =>
       await fieldsObj <- get_prop listConfig "fields";
       await identityFieldConfig <- get_prop fieldsObj (identityField auth);
       match identityFieldConfig with
       | VUndefined =>
           let i := stringify (identityField auth) in
           throw (Error (msg_field (listKey auth) i))
       | _ => ret ()
       end
   end)%js.

Definition withItemData (_sessionStrategy : Value) : M Heap Value :=
  (await props <- own_props _sessionStrategy;
   await sessionStrategy <- alloc (Obj (delete "get" props));
   await rest <- own_props sessionStrategy;
   await get <- alloc (Fun WrappedGet);
   alloc (Obj (<["get" := get]> rest)))%js.

(** The [ui] object literal of [withAuth]. *)
Definition composedUi (keystoneConfig callerUi : Value) : M Heap Value :=
  (await uiProps <- own_props callerUi;
   await callerPages <- get_prop callerUi "publicPages";
   await pagesArray <- or_empty_array callerPages;
   await pages <- iterate pagesArray;
   await newPages <- alloc (Arr (pages ++ (VString <$> publicPages auth)));
   await callerFiles <- get_prop callerUi "getAdditionalFiles";
   await filesArray <- or_empty_array callerFiles;
   await files <- iterate filesArray;
   await newFiles <- alloc (Arr (files ++ [getAdditionalFiles_fn fns]));
   await middleware <- alloc (Fun (ComposedPageMiddleware keystoneConfig));
   await allowed <- alloc (Fun (ComposedIsAccessAllowed keystoneConfig));
   alloc (Obj (<["isAccessAllowed" := allowed]>
              (<["enableSessionItem" := VBool true]>
              (<["pageMiddleware" := middleware]>
              (<["getAdditionalFiles" := newFiles]>
              (<["publicPages" := newPages]> uiProps)))))))%js.

Definition withAuth (keystoneConfig : Value) : M Heap Value :=
  (await _ <- validateConfig keystoneConfig;
   await callerUi <- get_prop keystoneConfig "ui";
   await ui <- (if truthy_value callerUi
                then composedUi keystoneConfig callerUi
                else ret callerUi);
   await callerSession <- get_prop keystoneConfig "session";
   await session <- (if truthy_value callerSession && truthy_opt (sessionData auth)
                     then withItemData callerSession
                     else ret callerSession);
   await existing <- get_prop keystoneConfig "extendGraphqlSchema";
   await configProps <- own_props keystoneConfig;
   await callerLists <- get_prop keystoneConfig "lists";
   await listsProps <- own_props callerLists;
   await newLists <- alloc (Obj listsProps);
   await extend <- (if truthy_value existing
                    then alloc (Fun (ComposedExtendGraphqlSchema existing))
                    else ret (extendGraphqlSchema_fn fns));
   alloc (Obj (<["extendGraphqlSchema" := extend]>
              (<["lists" := newLists]>
              (<["session" := session]>
              (<["ui" := ui]> configProps))))))%js.

End CreateAuth.

(** [c], run in [h], writes to no object of [h], and its value satisfies
    [Q] when it returns. *)
Definition returns {A : Type} (c : M Heap A) (h : Heap) (Q : A → Heap → Prop) : Prop :=
  h ⊆ (c h).2 ∧
  match (c h).1 with
  | Normal a => Q a (c h).2
  | Throw _ => True
  end.

(** [v] is a reference the heap [h] has not allocated. *)
Definition fresh_in (h : Heap) (v : Value) : Prop :=
  ∃ l, v = VRef l ∧ h !! l = None.

(** A caller's heap: the configuration object is at location 1. *)
Definition config_props0 : gmap string Value :=
  list_to_map [("lists", VRef 2); ("ui", VRef 4); ("session", VRef 7);
               ("extendGraphqlSchema", VRef 9); ("db", VString "sqlite")].

Definition heap0 : Heap :=
  list_to_map [
    (1%positive, Obj config_props0);
    (2%positive, Obj {[ "User" := VRef 3 ]});
    (3%positive, Obj {[ "fields" := VRef 10 ]});
    (4%positive, Obj (list_to_map [("publicPages", VRef 5); ("pageMiddleware", VRef 6)]));
    (5%positive, Arr [VString "/welcome"; VString "/about"]);
    (6%positive, Fun (HostFunction "callerMiddleware"));
    (7%positive, Obj (list_to_map [("start", VRef 12); ("end", VRef 13); ("get", VRef 8)]));
    (8%positive, Fun (HostFunction "get"));
    (9%positive, Fun (HostFunction "callerExtension"));
    (10%positive, Obj {[ "email" := VRef 11 ]});
    (11%positive, Obj {[ "type" := VString "text" ]});
    (12%positive, Fun (HostFunction "start"));
    (13%positive, Fun (HostFunction "end"));
    (14%positive, Fun (HostFunction "getAdditionalFiles"));
    (15%positive, Fun (HostFunction "extendGraphqlSchema")) ].

Definition fns0 : CreateAuthClosures :=
  {| getAdditionalFiles_fn := VRef 14; extendGraphqlSchema_fn := VRef 15 |}.

(** A heap whose configuration object has no [lists]. *)
Definition heap_nolists : Heap :=
  {[ 1%positive := Obj {[ "db" := VString "sqlite" ]} ]}.

End OnHeap.

(** * Properties *)

(** ** Strings *)

Lemma prefix_app (t s : string) :
  String.prefix t s = true ↔ ∃ b, s = t +:+ b.
Proof.
  revert s. induction t as [|c t IH]; intros s; simpl.
  - split; [intros _; exists s; by destruct s | by destruct s].
  - destruct s as [|d s]; simpl.
    + split; [done | intros [b Hb]; discriminate].
    + destruct (Ascii.ascii_dec c d) as [->|Hne].
      * split.
        -- intros H. apply IH in H as [b ->]. by exists b.
        -- intros [b Hb]. apply IH. exists b. by injection Hb.
      * split; [done | intros [b Hb]; injection Hb; congruence].
Qed.

(** [includes] is the substring test of [String.prototype.includes]. *)
Lemma includes_substring (s t : string) :
  includes s t = true ↔ ∃ a b, s = a +:+ t +:+ b.
Proof.
  induction s as [|c s IH].
  - cbn [includes]. rewrite orb_false_r, prefix_app. split.
    + intros [b Hb]. by exists EmptyString, b.
    + intros [a [b Hab]]. destruct a; [by exists b | discriminate].
  - cbn [includes]. rewrite orb_true_iff, IH, prefix_app. split.
    + intros [[b Hb] | [a [b Hab]]].
      * by exists EmptyString, b.
      * exists (String c a), b. simpl. by rewrite Hab.
    + intros [a [b Hab]]. destruct a as [|d a]; simpl in Hab.
      * left. by exists b.
      * right. injection Hab as _ Hab. by exists a, b.
Qed.

Lemma prefix_includes (s t : string) :
  String.prefix t s = true → includes s t = true.
Proof. intros H. destruct s; cbn [includes]; by rewrite H. Qed.

(** ** The monad *)

Lemma bind_lift {World A B : Type} (o : Outcome A) (k : A → M World B) (w : World) :
  bind (lift o) k w = match o with Normal a => k a w | Throw e => (Throw e, w) end.
Proof. by destruct o. Qed.

Lemma bind_ret {World A B : Type} (a : A) (k : A → M World B) (w : World) :
  bind (ret a) k w = k a w.
Proof. done. Qed.

(** ** The Access Decision Engine *)

Section PageMiddleware.

Context {World GraphQLSchema : Type}.
Variable env : Collaborators World GraphQLSchema.
Variable auth : AuthConfig.

(** [pageMiddleware] neither reads nor changes the outside world. *)
Lemma pageMiddleware_pure (args : PageMiddlewareArgs World) (w : World) :
  (pageMiddleware env auth args w).2 = w.
Proof. done. Qed.

(** Without a request URL, [url.parse] throws. *)
Lemma pageMiddleware_no_url (args : PageMiddlewareArgs World) (w : World) :
  req (context args) ≫= url = None →
  ∃ msg, pageMiddleware env auth args w = (Throw (TypeError msg), w).
Proof.
  intros H. unfold pageMiddleware, lift, request_pathname. rewrite H. by eexists.
Qed.

(** What [pageMiddleware] does, rule by rule, for a request whose URL
    has a pathname [p]: with a valid session it redirects to the mount
    path when [p] is the sign-in path and continues otherwise; without
    one, it redirects to the sign-in page when the context holds no
    session and [p] does not contain the auth-API prefix, and continues
    when the context holds a session or [p] contains that prefix. *)
Theorem pageMiddleware_rules (args : PageMiddlewareArgs World) (p : string) (w : World) :
  request_pathname env (req (context args)) = Normal (Some p) →
  let signin := keystonePath auth +:+ "/api/auth/signin" in
  let prefix := keystonePath auth +:+ "/api/auth/" in
  (isValidSession args = true → p = signin →
     pageMiddleware env auth args w = (Normal (Some (Redirect (keystonePath auth))), w)) ∧
  (isValidSession args = true → p ≠ signin →
     pageMiddleware env auth args w = (Normal None, w)) ∧
  (isValidSession args = false → session (context args) = None →
   includes p prefix = false →
     pageMiddleware env auth args w = (Normal (Some (Redirect signin)), w)) ∧
  (isValidSession args = false →
   session (context args) ≠ None ∨ includes p prefix = true →
     pageMiddleware env auth args w = (Normal None, w)).
Proof.
  intros Hp signin prefix. unfold pageMiddleware, lift. rewrite Hp. cbn.
  repeat split.
  - intros -> ->. by rewrite decide_True.
  - intros -> Hne. rewrite decide_False; [done | by intros [= ?]].
  - intros -> -> Hinc. fold prefix. by rewrite Hinc.
  - intros -> [Hs | Hinc].
    + by destruct (session (context args)).
    + destruct (session (context args)); [done |]. fold prefix. by rewrite Hinc.
Qed.

(** On the paths the specification calls "under the prefix" the two
    readings agree: a path that starts with the prefix contains it. *)
Lemma pageMiddleware_under_prefix (args : PageMiddlewareArgs World) (p : string) (w : World) :
  request_pathname env (req (context args)) = Normal (Some p) →
  isValidSession args = false →
  String.prefix (keystonePath auth +:+ "/api/auth/") p = true →
  pageMiddleware env auth args w = (Normal None, w).
Proof.
  intros Hp Hv Hpre. unfold pageMiddleware, lift. rewrite Hp, Hv. cbn.
  destruct (session (context args)); [done |].
  by rewrite (prefix_includes _ _ Hpre).
Qed.

End PageMiddleware.

Lemma pageMiddleware_rules_witness :
  let args := {| context := context0 (get_request "/dashboard?tab=1" None) None 0;
                 isValidSession := false |} in
  request_pathname env0 (req (context args)) = Normal (Some "/dashboard") ∧
  pageMiddleware env0 auth0 args 7 = (Normal (Some (Redirect "/api/auth/signin")), 7).
Proof.
  split; [reflexivity |].
  apply (pageMiddleware_rules env0 auth0 _ "/dashboard" 7); reflexivity.
Defined.

(** C1. The third rule is broken where the context holds a session the
    host judged invalid: a request to [/dashboard], which is not under
    the auth-API prefix, comes without a valid session, so the engine of
    the specification, and the function's own description ("to the signin
    page when no valid session is present"), send it to the sign-in page;
    the code, which tests [!session], lets it continue. *)
Lemma pageMiddleware_invalid_session_not_redirected :
  let args := {| context := context0 (get_request "/dashboard" None) (Some alice) 0;
                 isValidSession := false |} in
  request_pathname env0 (req (context args)) = Normal (Some "/dashboard") ∧
  spec_decide (keystonePath auth0) "/dashboard" (isValidSession args)
    = Some (Redirect "/api/auth/signin") ∧
  pageMiddleware env0 auth0 args 0 = (Normal None, 0) ∧
  pageMiddleware env0 auth0 args 0
    ≠ (Normal (spec_decide (keystonePath auth0) "/dashboard" (isValidSession args)), 0).
Proof. repeat split; [reflexivity .. | discriminate]. Qed.

(** The second difference: without any session, a path that contains the
    auth-API prefix without starting with it is let through. *)
Lemma pageMiddleware_prefix_inside_path :
  let args := {| context := context0 (get_request "/files/api/auth/notes" None) None 0;
                 isValidSession := false |} in
  String.prefix (keystonePath auth0 +:+ "/api/auth/") "/files/api/auth/notes" = false ∧
  spec_decide (keystonePath auth0) "/files/api/auth/notes" false
    = Some (Redirect "/api/auth/signin") ∧
  pageMiddleware env0 auth0 args 0 = (Normal None, 0).
Proof. repeat split; reflexivity. Qed.

(** ** Public pages *)

Section WithAuth.

Context {World GraphQLSchema : Type}.
Variable env : Collaborators World GraphQLSchema.
Variable auth : AuthConfig.

(** [withAuth] returns a configuration exactly when validation passes. *)
Lemma withAuth_returns (cfg : KeystoneConfig World GraphQLSchema) :
  validateConfig env auth cfg = Normal () → ∃ cfg', withAuth env auth cfg = Normal cfg'.
Proof. intros H. unfold withAuth. rewrite H. by eexists. Qed.

Lemma withAuth_throws (cfg : KeystoneConfig World GraphQLSchema) (e : JsError) :
  validateConfig env auth cfg = Throw e → withAuth env auth cfg = Throw e.
Proof. intros H. unfold withAuth. by rewrite H. Qed.

Lemma withAuth_validated (cfg cfg' : KeystoneConfig World GraphQLSchema) :
  withAuth env auth cfg = Normal cfg' → validateConfig env auth cfg = Normal ().
Proof.
  unfold withAuth. destruct (validateConfig env auth cfg) as [[]|e]; [done | discriminate].
Qed.

(** The composed list is the caller's list followed by [publicPages]. *)
Lemma withAuth_publicPages (cfg cfg' : KeystoneConfig World GraphQLSchema)
    (callerUi : AdminUIConfig World) (pages : list string) :
  withAuth env auth cfg = Normal cfg' →
  ui cfg = Some callerUi → ui_publicPages callerUi = Some pages →
  ui cfg' ≫= ui_publicPages = Some (pages ++ publicPages auth)%list.
Proof.
  intros H Hui Hpages. pose proof (withAuth_validated _ _ H) as Hv.
  unfold withAuth in H. rewrite Hv in H. cbn in H. injection H as <-.
  cbn. rewrite Hui. cbn. by rewrite Hpages.
Qed.

End WithAuth.

(** C2 at a concrete configuration: the composed list is the caller's two
    pages followed by eight paths, the fourth of which is spelled
    [callack]; the provider's [callback] route is not in the list, so the
    eight paths are not the eight routes of the specification. *)
Theorem withAuth_publicPages_callack :
  (withAuth env0 auth0 config0 ≫= λ cfg', Normal (ui cfg' ≫= ui_publicPages))
    = Normal (Some [ "/welcome"; "/about";
                     "/api/auth/csrf"; "/api/auth/signin"; "/api/auth/signin/auth0";
                     "/api/auth/callack"; "/api/auth/callback/auth0";
                     "/api/auth/session"; "/api/auth/providers"; "/api/auth/signout" ]) ∧
  "/api/auth/callback" ∈ spec_publicPages (keystonePath auth0) "auth0" ∧
  ("/api/auth/callback" ∉ publicPages auth0) ∧
  publicPages auth0 ≠ spec_publicPages (keystonePath auth0) "auth0".
Proof.
  split; [reflexivity |]. split; [| split].
  - cbn. set_solver.
  - cbn. intros H. repeat (apply elem_of_cons in H as [H | H]; [discriminate |]).
    by apply elem_of_nil in H.
  - discriminate.
Qed.

(** Apart from that one entry the two lists agree, for every mount path. *)
Lemma publicPages_differs_at_callback (auth : AuthConfig) :
  (<[3 := keystonePath auth +:+ "/api/auth/callback"]> (publicPages auth))
    = spec_publicPages (keystonePath auth) "auth0" ∧
  publicPages auth !! 3 = Some (keystonePath auth +:+ "/api/auth/callack").
Proof.
  split; [| reflexivity]. unfold publicPages, spec_publicPages. cbn.
  repeat f_equal; induction (keystonePath auth); cbn; congruence.
Qed.

(** ** Validation *)

Section Validation.

Context {World GraphQLSchema : Type}.
Variable env : Collaborators World GraphQLSchema.
Variable auth : AuthConfig.

(** What [validateConfig] does, by what the two reads find. A list key
    that [lists] neither has nor inherits gives the "no list" [Error], one
    it only inherits a [TypeError]; on a list of the configuration, a
    field key that [fields] neither has nor inherits gives the "no field"
    [Error], and one it has or only inherits passes. [withAuth] throws
    what validation throws and returns when it passes. *)
Lemma validateConfig_cases (cfg : KeystoneConfig World GraphQLSchema) :
  (lists cfg !! listKey auth = None →
     if inherited (listKey auth)
     then ∃ msg, validateConfig env auth cfg = Throw (TypeError msg) ∧
                 withAuth env auth cfg = Throw (TypeError msg)
     else validateConfig env auth cfg = Throw (Error (msg_list (listKey auth))) ∧
          withAuth env auth cfg = Throw (Error (msg_list (listKey auth)))) ∧
  (∀ listConfig, lists cfg !! listKey auth = Some listConfig →
     fields listConfig !! identityField auth = None →
     if inherited (identityField auth)
     then validateConfig env auth cfg = Normal () ∧
          ∃ cfg', withAuth env auth cfg = Normal cfg'
     else ∃ msg, validateConfig env auth cfg = Throw (Error msg) ∧
                 withAuth env auth cfg = Throw (Error msg)) ∧
  (∀ listConfig fieldConfig, lists cfg !! listKey auth = Some listConfig →
     fields listConfig !! identityField auth = Some fieldConfig →
     validateConfig env auth cfg = Normal () ∧
     ∃ cfg', withAuth env auth cfg = Normal cfg').
Proof.
  split; [| split].
  - intros Hl. assert (validateConfig env auth cfg =
                        if inherited (listKey auth)
                        then Throw (TypeError "Cannot read property of undefined")
                        else Throw (Error (msg_list (listKey auth)))) as Hv.
    { unfold validateConfig, read_property. rewrite Hl.
      by destruct (inherited (listKey auth)). }
    destruct (inherited (listKey auth)).
    + eexists. split; [exact Hv |]. by apply withAuth_throws.
    + split; [exact Hv |]. by apply withAuth_throws.
  - intros l Hl Hf.
    assert (validateConfig env auth cfg =
              if inherited (identityField auth) then Normal ()
              else Throw (Error (msg_field (listKey auth)
                                   (JSON_stringify env (identityField auth))))) as Hv.
    { unfold validateConfig, read_property. rewrite Hl, Hf.
      by destruct (inherited (identityField auth)). }
    destruct (inherited (identityField auth)).
    + split; [exact Hv |]. by apply withAuth_returns.
    + eexists. split; [exact Hv |]. by apply withAuth_throws.
  - intros l f Hl Hf.
    assert (validateConfig env auth cfg = Normal ()) as Hv.
    { unfold validateConfig, read_property. by rewrite Hl, Hf. }
    split; [exact Hv |]. by apply withAuth_returns.
Qed.

End Validation.

Lemma validateConfig_cases_witness :
  lists config0 !! listKey auth0 = Some userList ∧
  fields userList !! identityField auth0 = Some {| field_type := "text" |} ∧
  validateConfig env0 auth0 config0 = Normal () ∧
  ∃ cfg', withAuth env0 auth0 config0 = Normal cfg'.
Proof.
  split; [reflexivity |]. split; [reflexivity |].
  exact (proj2 (proj2 (validateConfig_cases env0 auth0 config0)) userList _ eq_refl eq_refl).
Defined.

(** C5. The claim fails on names every object inherits. With
    [identityField] [toString], which is no field of the [User] list,
    [fields['toString']] finds the inherited method: [validateConfig]
    returns and [withAuth] returns a configuration. With [listKey]
    [constructor], which is no list, [lists['constructor']] finds the
    inherited constructor: validation throws a [TypeError] on its missing
    [fields], not the [Error] of an unknown list. *)
Theorem validateConfig_inherited_names :
  lists config0 !! listKey auth_toString = Some userList ∧
  fields userList !! identityField auth_toString = None ∧
  validateConfig env0 auth_toString config0 = Normal () ∧
  (∃ cfg', withAuth env0 auth_toString config0 = Normal cfg') ∧
  lists config0 !! listKey auth_constructor = None ∧
  ∃ msg, validateConfig env0 auth_constructor config0 = Throw (TypeError msg) ∧
         withAuth env0 auth_constructor config0 = Throw (TypeError msg).
Proof.
  split; [reflexivity |]. split; [reflexivity |]. split; [reflexivity |].
  split; [eexists; reflexivity |]. split; [reflexivity |].
  eexists. split; reflexivity.
Qed.

(** The two failures, on [auth0]: an unknown list key, an unknown field. *)
Example validateConfig_unknown_list :
  ∃ msg, withAuth env0
           {| listKey := "NoSuchList"; identityField := "email"; sessionData := None;
              autoCreate := false; userMap := []; accountMap := []; profileMap := [];
              keystonePath := "" |} config0 = Throw (Error msg).
Proof. eexists. reflexivity. Qed.

Example validateConfig_unknown_field :
  ∃ msg, withAuth env0
           {| listKey := "User"; identityField := "login"; sessionData := None;
              autoCreate := false; userMap := []; accountMap := []; profileMap := [];
              keystonePath := "" |} config0 = Throw (Error msg).
Proof. eexists. reflexivity. Qed.

(** ** Composition of the schema extensions, the middleware and the session *)

Section Composition.

Context {World GraphQLSchema : Type}.
Variable env : Collaborators World GraphQLSchema.
Variable auth : AuthConfig.

(** The configuration [withAuth] returns, once validation has passed. *)
Lemma withAuth_inv (cfg cfg' : KeystoneConfig World GraphQLSchema) :
  withAuth env auth cfg = Normal cfg' →
  lists cfg' = lists cfg ∧
  config_other cfg' = config_other cfg ∧
  ui cfg' =
    match ui cfg with
    | Some callerUi =>
        Some {| ui_publicPages := Some (default [] (ui_publicPages callerUi) ++ publicPages auth)%list;
                ui_getAdditionalFiles :=
                  Some (default [] (ui_getAdditionalFiles callerUi) ++ [getAdditionalFiles env auth])%list;
                ui_pageMiddleware := Some (composedPageMiddleware env auth cfg);
                enableSessionItem := Some true;
                ui_isAccessAllowed := Some (isAccessAllowed env auth cfg);
                ui_other := ui_other callerUi |}
    | None => None
    end ∧
  cfg_session cfg' =
    match cfg_session cfg with
    | Some s => if truthy_opt (sessionData auth) then Some (withItemData env s) else Some s
    | None => None
    end ∧
  cfg_extendGraphqlSchema cfg' =
    Some match cfg_extendGraphqlSchema cfg with
         | Some existing => λ schema, existing (extendGraphqlSchema env auth schema)
         | None => extendGraphqlSchema env auth
         end.
Proof.
  intros H. pose proof (withAuth_validated _ _ _ _ H) as Hv.
  unfold withAuth in H. rewrite Hv in H. cbn in H. by injection H as <-.
Qed.

(** C3 (amended). The composed [extendGraphqlSchema] applies this module's
    extension to the schema first and the caller's extension to the
    result; without a caller's extension it is this module's extension. *)
Theorem withAuth_extendGraphqlSchema (cfg cfg' : KeystoneConfig World GraphQLSchema) :
  withAuth env auth cfg = Normal cfg' →
  ∃ composed, cfg_extendGraphqlSchema cfg' = Some composed ∧
    match cfg_extendGraphqlSchema cfg with
    | Some existing => ∀ schema, composed schema = existing (extendGraphqlSchema env auth schema)
    | None => composed = extendGraphqlSchema env auth
    end.
Proof.
  intros H. apply withAuth_inv in H as (_ & _ & _ & _ & ->).
  eexists. split; [reflexivity |]. by destruct (cfg_extendGraphqlSchema cfg).
Qed.

(** C6. With a caller's [ui.pageMiddleware], the composed middleware runs
    [pageMiddleware] first: its redirect is the result; when it continues,
    the result is the caller's middleware on the same arguments. *)
Theorem withAuth_pageMiddleware (cfg cfg' : KeystoneConfig World GraphQLSchema)
    (callerUi : AdminUIConfig World)
    (callerPageMiddleware : PageMiddlewareArgs World → M World (option PageMiddlewareResult)) :
  ui cfg = Some callerUi →
  ui_pageMiddleware callerUi = Some callerPageMiddleware →
  withAuth env auth cfg = Normal cfg' →
  ∃ composed, ui cfg' ≫= ui_pageMiddleware = Some composed ∧
    ∀ args w,
      match pageMiddleware env auth args w with
      | (Normal (Some redirect), w') => composed args w = (Normal (Some redirect), w')
      | (Normal None, w') => composed args w = callerPageMiddleware args w'
      | (Throw e, w') => composed args w = (Throw e, w')
      end.
Proof.
  intros Hui Hm H. apply withAuth_inv in H as (_ & _ & -> & _).
  rewrite Hui. eexists. split; [reflexivity |].
  intros args w. unfold composedPageMiddleware, bind.
  destruct (pageMiddleware env auth args w) as [[[r|]|e] w']; [done | | done].
  rewrite Hui. cbn. by rewrite Hm.
Qed.

(** C7. The returned [session] is [withItemData] of the caller's strategy
    when there is a strategy and [sessionData] is set (truthy); it is the
    caller's [session] itself when either is missing. *)
Theorem withAuth_session (cfg cfg' : KeystoneConfig World GraphQLSchema) :
  withAuth env auth cfg = Normal cfg' →
  (∀ s, cfg_session cfg = Some s → truthy_opt (sessionData auth) = true →
     cfg_session cfg' = Some (withItemData env s)) ∧
  (cfg_session cfg = None ∨ truthy_opt (sessionData auth) = false →
     cfg_session cfg' = cfg_session cfg).
Proof.
  intros H. apply withAuth_inv in H as (_ & _ & _ & -> & _). split.
  - intros s -> ->. done.
  - intros [-> | ->]; [done |]. by destruct (cfg_session cfg).
Qed.

(** C10. Without a [ui] sub-config the returned configuration has none
    either, for every configuration [withAuth] accepts. *)
Theorem withAuth_without_ui (cfg : KeystoneConfig World GraphQLSchema) :
  ui cfg = None →
  (∀ cfg', withAuth env auth cfg = Normal cfg' → ui cfg' = None) ∧
  (validateConfig env auth cfg = Normal () →
     ∃ cfg', withAuth env auth cfg = Normal cfg' ∧ ui cfg' = None).
Proof.
  intros Hui. assert (∀ cfg', withAuth env auth cfg = Normal cfg' → ui cfg' = None) as Hnone.
  { intros cfg' H. apply withAuth_inv in H as (_ & _ & -> & _). by rewrite Hui. }
  split; [done |]. intros Hv.
  destruct (withAuth_returns env auth cfg Hv) as [cfg' H]. eauto.
Qed.

End Composition.

Lemma withAuth_extendGraphqlSchema_witness :
  ∃ cfg' composed,
    withAuth env0 auth0 config0 = Normal cfg' ∧
    cfg_extendGraphqlSchema cfg' = Some composed ∧
    composed [] = ["authenticateUserWithPassword"; "createInitialUser"; "X"].
Proof.
  destruct (withAuth env0 auth0 config0) as [cfg'|e] eqn:H; [| discriminate H].
  destruct (withAuth_extendGraphqlSchema env0 auth0 config0 cfg' H) as (composed & Hc & Hs).
  exists cfg', composed. split; [done |]. split; [done |]. apply Hs.
Defined.

(** C3 (as stated) fails: with a caller's extension that appends [X], the
    composed extension yields this module's two operations followed by
    [X]; the order of the specification would put [X] first. *)
Lemma withAuth_extendGraphqlSchema_caller_last :
  (withAuth env0 auth0 config0 ≫= λ cfg',
     Normal ((λ composed, composed []) <$> cfg_extendGraphqlSchema cfg'))
    = Normal (Some ["authenticateUserWithPassword"; "createInitialUser"; "X"]) ∧
  spec_composedExtension callerExtension (extendGraphqlSchema env0 auth0) []
    = ["X"; "authenticateUserWithPassword"; "createInitialUser"] ∧
  (withAuth env0 auth0 config0 ≫= λ cfg',
     Normal ((λ composed, composed []) <$> cfg_extendGraphqlSchema cfg'))
    ≠ Normal (Some (spec_composedExtension callerExtension (extendGraphqlSchema env0 auth0) [])).
Proof. repeat split; [reflexivity .. | discriminate]. Qed.

Lemma withAuth_pageMiddleware_witness :
  ui config0 = Some callerUi0 ∧
  ui_pageMiddleware callerUi0 = Some callerMiddleware ∧
  ∃ cfg' composed,
    withAuth env0 auth0 config0 = Normal cfg' ∧
    ui cfg' ≫= ui_pageMiddleware = Some composed ∧
    (** unauthenticated, outside the auth API: this module's redirect *)
    composed {| context := context0 (get_request "/dashboard" None) None 0;
                isValidSession := false |} 0
      = (Normal (Some (Redirect "/api/auth/signin")), 0) ∧
    (** authenticated: the caller's middleware decides *)
    composed {| context := context0 (get_request "/dashboard" None) (Some alice) 0;
                isValidSession := true |} 0
      = (Normal (Some (Redirect "/maintenance")), 0).
Proof.
  split; [reflexivity |]. split; [reflexivity |].
  destruct (withAuth env0 auth0 config0) as [cfg'|e] eqn:H; [| discriminate H].
  destruct (withAuth_pageMiddleware env0 auth0 config0 cfg' callerUi0 callerMiddleware
              eq_refl eq_refl H) as (composed & Hc & Hs).
  exists cfg', composed. split; [done |]. split; [done |]. split.
  - apply (Hs {| context := context0 (get_request "/dashboard" None) None 0;
                 isValidSession := false |} 0).
  - apply (Hs {| context := context0 (get_request "/dashboard" None) (Some alice) 0;
                 isValidSession := true |} 0).
Defined.

Lemma withAuth_session_witness :
  ∃ cfg', withAuth env0 auth0 config0 = Normal cfg' ∧
    cfg_session cfg' = Some (withItemData env0 callerStrategy).
Proof.
  destruct (withAuth env0 auth0 config0) as [cfg'|e] eqn:H; [| discriminate H].
  exists cfg'. split; [done |].
  apply (proj1 (withAuth_session env0 auth0 config0 cfg' H) callerStrategy); reflexivity.
Defined.

Lemma withAuth_without_ui_witness :
  ui config_noui = None ∧
  validateConfig env0 auth0 config_noui = Normal () ∧
  ∃ cfg', withAuth env0 auth0 config_noui = Normal cfg' ∧ ui cfg' = None.
Proof.
  split; [reflexivity |]. split; [reflexivity |].
  apply (proj2 (withAuth_without_ui env0 auth0 config_noui eq_refl)). reflexivity.
Defined.

(** ** The Session Augmentor *)

Section WithItemData.

Context {World GraphQLSchema : Type}.
Variable env : Collaborators World GraphQLSchema.

(** C8. For a request whose pathname contains [/api/auth], the wrapped
    [get] returns [undefined] and leaves the outside world as it was: the
    identity provider is not asked. For any other pathname it returns what
    [getSession] returns, a session as it is and [undefined] for none.
    [start] and [end] are those of the base strategy. *)
Theorem withItemData_get (base : SessionStrategy World) (r : option IncomingMessage)
    (p : string) :
  request_pathname env r = Normal (Some p) →
  (includes p "/api/auth" = true →
     ∀ w, get (withItemData env base) r w = (Normal None, w)) ∧
  (includes p "/api/auth" = false →
     ∀ w, get (withItemData env base) r w = getSession env r w) ∧
  start (withItemData env base) = start base ∧
  end_ (withItemData env base) = end_ base.
Proof.
  intros Hp. repeat split.
  - intros Hinc w. unfold withItemData. cbn [get]. unfold bind, lift.
    rewrite Hp. cbn. by rewrite Hinc.
  - intros Hinc w. unfold withItemData. cbn [get]. unfold bind, lift.
    rewrite Hp. cbn. rewrite Hinc.
    by destruct (getSession env r w) as [[[s|]|e] w'].
Qed.

(** The wrapped [get] never calls the [get] of the base strategy. *)
Lemma withItemData_ignores_base_get (base base' : SessionStrategy World) :
  get (withItemData env base) = get (withItemData env base').
Proof. done. Qed.

End WithItemData.

Lemma withItemData_get_witness :
  let r := Some (get_request "/api/auth/session" None) in
  request_pathname env0 r = Normal (Some "/api/auth/session") ∧
  getSession env0 r 0 = (Normal (Some alice), 1) ∧
  get (withItemData env0 callerStrategy) r 0 = (Normal None, 0).
Proof.
  split; [reflexivity |]. split; [reflexivity |].
  apply (proj1 (withItemData_get env0 callerStrategy
                  (Some (get_request "/api/auth/session" None)) "/api/auth/session" eq_refl)).
  reflexivity.
Defined.

(** Outside the auth API the provider's session is returned as it is. *)
Example withItemData_get_elsewhere :
  get (withItemData env0 callerStrategy) (Some (get_request "/dashboard" None)) 0
    = (Normal (Some alice), 1).
Proof. reflexivity. Qed.

(** ** The bootstrap carve-out *)

Section IsAccessAllowed.

Context {World GraphQLSchema : Type}.
Variable env : Collaborators World GraphQLSchema.
Variable auth : AuthConfig.

(** [thisUrl] is a parsed URL exactly for a non-empty referer that parses. *)
Lemma thisUrl_Some (hs : option Headers) (u : URL) :
  thisUrl env hs = Normal (Some u) ↔
  ∃ r, hs ≫= referer = Some r ∧ truthy r = true ∧ new_URL env r = Some u.
Proof.
  unfold thisUrl. destruct (hs ≫= referer) as [r|]; [| split; [done | by intros (? & ? & _)]].
  split.
  - intros H. exists r. destruct (truthy r); [| done].
    destruct (new_URL env r); [| done]. by injection H as ->.
  - intros (r' & [= <-] & -> & ->). done.
Qed.

(** [accessingInitPage] is [true] exactly in the bootstrap window. *)
Lemma accessingInitPage_true (ctx : KeystoneContext World) (w : World) :
  (accessingInitPage env auth ctx w).1 = Normal true ↔ bootstrap_window env auth ctx w.
Proof.
  unfold accessingInitPage, bootstrap_window. rewrite bind_lift.
  set (hs := headers <$> req ctx). split.
  - destruct (thisUrl env hs) as [[u|]|e] eqn:Hu; [| done | done].
    apply thisUrl_Some in Hu as (r & Hr & Ht & Hn). cbn.
    case_bool_decide as Hpath; [| done]. case_bool_decide as Hhost; [| done]. cbn.
    unfold bind. destruct (sudo_lists_count ctx (listKey auth) w) as [[n|e] w'] eqn:Hc; [| done].
    cbn. case_bool_decide as Hn0; [| done]. intros _.
    exists r, u. repeat split; [done .. | by injection Hpath | done | by subst n].
  - intros (r & u & Hr & Ht & Hn & Hpath & Hhost & Hc).
    assert (thisUrl env hs = Normal (Some u)) as -> by (apply thisUrl_Some; eauto).
    cbn. rewrite Hpath, Hhost. rewrite !bool_decide_eq_true_2 by done. cbn.
    unfold bind. destruct (sudo_lists_count ctx (listKey auth) w) as [[n|e] w'];
      cbn in Hc; [| done]. injection Hc as ->. done.
Qed.

(** C4. In the bootstrap window (the referer's path is [/init], its host
    is the request's host, and the privileged count is zero) the composed
    [isAccessAllowed] allows access, whatever the caller's predicate and
    the session; [accessingInitPage] holds in that window only; outside
    it, access is allowed only if the caller's predicate returns [true]
    or, without a caller's predicate, the session is defined; and for a
    request without a session and a caller's predicate, access is allowed
    if and only if the window is open. *)
Theorem isAccessAllowed_bootstrap (cfg : KeystoneConfig World GraphQLSchema)
    (ctx : KeystoneContext World) (w : World) :
  (bootstrap_window env auth ctx w →
     (isAccessAllowed env auth cfg ctx w).1 = Normal true) ∧
  ((accessingInitPage env auth ctx w).1 = Normal true ↔ bootstrap_window env auth ctx w) ∧
  (¬ bootstrap_window env auth ctx w →
   (isAccessAllowed env auth cfg ctx w).1 = Normal true →
     fallback_allows cfg ctx (accessingInitPage env auth ctx w).2) ∧
  (ui cfg ≫= ui_isAccessAllowed = None → session ctx = None →
     ((isAccessAllowed env auth cfg ctx w).1 = Normal true ↔ bootstrap_window env auth ctx w)).
Proof.
  pose proof (accessingInitPage_true ctx w) as Hinit.
  assert (bootstrap_window env auth ctx w →
          (isAccessAllowed env auth cfg ctx w).1 = Normal true) as Hopen.
  { intros Hb. apply Hinit in Hb. unfold isAccessAllowed, bind.
    destruct (accessingInitPage env auth ctx w) as [[[]|e] w']; cbn in Hb; done. }
  assert (¬ bootstrap_window env auth ctx w →
          (isAccessAllowed env auth cfg ctx w).1 = Normal true →
          fallback_allows cfg ctx (accessingInitPage env auth ctx w).2) as Hclosed.
  { intros Hnb. unfold isAccessAllowed, bind, fallback_allows.
    destruct (accessingInitPage env auth ctx w) as [[[]|e] w'] eqn:Ha; cbn.
    - exfalso. apply Hnb, Hinit. done.
    - destruct (ui cfg ≫= ui_isAccessAllowed) as [caller|]; [done |].
      cbn. by case_bool_decide.
    - done. }
  split; [done |]. split; [done |]. split; [done |].
  intros Hcaller Hsession. split; [| done].
  unfold isAccessAllowed, bind.
  destruct (accessingInitPage env auth ctx w) as [[[]|e] w'] eqn:Ha; cbn.
  - intros _. by apply Hinit.
  - rewrite Hcaller, Hsession. cbn. try case_bool_decide; done.
  - done.
Qed.

(** Outside the window, when nothing throws, the answer is the fallback's:
    the caller's predicate, or else whether the session is defined. *)
Lemma isAccessAllowed_fallback (cfg : KeystoneConfig World GraphQLSchema)
    (ctx : KeystoneContext World) (w w' : World) :
  accessingInitPage env auth ctx w = (Normal false, w') →
  isAccessAllowed env auth cfg ctx w =
    match ui cfg ≫= ui_isAccessAllowed with
    | Some callerIsAccessAllowed => callerIsAccessAllowed ctx w'
    | None => (Normal (bool_decide (session ctx ≠ None)), w')
    end.
Proof.
  intros H. unfold isAccessAllowed, bind. rewrite H.
  destruct (ui cfg) as [callerUi|]; cbn; [| reflexivity].
  destruct (ui_isAccessAllowed callerUi); reflexivity.
Qed.

(** The count is not queried unless the referer is the init page of the
    request's own host. *)
Lemma accessingInitPage_no_count (ctx : KeystoneContext World) (u : option URL) (w : World) :
  thisUrl env (headers <$> req ctx) = Normal u →
  URL_pathname <$> u ≠ Some "/init" ∨ URL_host <$> u ≠ request_host (headers <$> req ctx) →
  accessingInitPage env auth ctx w = (Normal false, w).
Proof.
  intros Hu Hne. unfold accessingInitPage. rewrite bind_lift, Hu.
  destruct Hne as [Hne | Hne].
  - by rewrite (bool_decide_eq_false_2 _ Hne).
  - rewrite (bool_decide_eq_false_2 _ Hne). by rewrite andb_false_r.
Qed.

End IsAccessAllowed.

Lemma isAccessAllowed_bootstrap_witness :
  let ctx := context0 (get_request "/api/graphql" (Some "http://localhost:3000/init")) None 0 in
  bootstrap_window env0 auth0 ctx 5 ∧
  (isAccessAllowed env0 auth0 config0 ctx 5).1 = Normal true.
Proof.
  assert (bootstrap_window env0 auth0
            (context0 (get_request "/api/graphql" (Some "http://localhost:3000/init")) None 0) 5)
    as Hopen.
  { exists "http://localhost:3000/init",
           {| URL_pathname := "/init"; URL_host := "localhost:3000" |}.
    repeat split; reflexivity. }
  split; [exact Hopen |].
  exact (proj1 (isAccessAllowed_bootstrap env0 auth0 config0 _ 5) Hopen).
Defined.

(** Changing one of the three conditions closes the window: an item
    exists, the referer is another page, the referer is on another host.
    Without a session and a caller's predicate access is then refused. *)
Example isAccessAllowed_initialised :
  isAccessAllowed env0 auth0 config0
    (context0 (get_request "/api/graphql" (Some "http://localhost:3000/init")) None 1) 5
  = (Normal false, 5).
Proof. reflexivity. Qed.

Example isAccessAllowed_other_page :
  isAccessAllowed env0 auth0 config0
    (context0 (get_request "/api/graphql" (Some "http://localhost:3000/users")) None 0) 5
  = (Normal false, 5).
Proof. reflexivity. Qed.

Example isAccessAllowed_other_host :
  isAccessAllowed env0 auth0 config0
    (context0 (get_request "/api/graphql" (Some "http://evil.example/init")) None 0) 5
  = (Normal false, 5).
Proof. reflexivity. Qed.

(** With a session the fallback allows access outside the window. *)
Example isAccessAllowed_with_session :
  isAccessAllowed env0 auth0 config0
    (context0 (get_request "/api/graphql" None) (Some alice) 1) 5
  = (Normal true, 5).
Proof. reflexivity. Qed.

(** The request's host is the forwarded host when a proxy sets one. *)
Example isAccessAllowed_forwarded_host :
  isAccessAllowed env0 auth0 config0
    {| req := Some {| url := Some "/api/graphql";
                      headers := {| host := Some "localhost:3000";
                                    x_forwarded_host := Some "admin.example.com";
                                    referer := Some "https://admin.example.com/init" |} |};
       session := None;
       sudo_lists_count := λ _, ret 0 |} 5
  = (Normal true, 5).
Proof. reflexivity. Qed.

(** A referer that does not parse makes the predicate throw. *)
Example isAccessAllowed_bad_referer :
  isAccessAllowed env0 auth0 config0
    (context0 (get_request "/api/graphql" (Some "not a url")) (Some alice) 0) 5
  = (Throw (TypeError "Invalid URL"), 5).
Proof. reflexivity. Qed.

(** ** [withAuth] does not write to the caller's objects *)

Section HeapFrame.

Import OnHeap.

Lemma props_at_mono (h h' : Heap) (v : Value) (props : gmap string Value) :
  h ⊆ h' → props_at h v = Some props → props_at h' v = Some props.
Proof.
  intros Hsub. destruct v as [| | | | |l|]; try done. cbn.
  destruct (h !! l) as [o|] eqn:Hl; [| done].
  by rewrite (lookup_weaken _ _ _ _ Hl Hsub).
Qed.

Lemma fresh_in_mono (h h' : Heap) (v : Value) :
  h ⊆ h' → fresh_in h' v → fresh_in h v.
Proof.
  intros Hsub (l & -> & Hl). exists l. split; [done |].
  destruct (h !! l) as [o|] eqn:Ho; [| done].
  by rewrite (lookup_weaken _ _ _ _ Ho Hsub) in Hl.
Qed.

Lemma fresh_in_not_props (h : Heap) (v v' : Value) (props : gmap string Value) :
  fresh_in h v → props_at h v' = Some props → v ≠ v'.
Proof.
  intros (l & -> & Hl) Hp <-. cbn in Hp. by rewrite Hl in Hp.
Qed.

Lemma returns_ret {A : Type} (a : A) (h : Heap) (Q : A → Heap → Prop) :
  Q a h → returns (ret a) h Q.
Proof. by split. Qed.

Lemma returns_throw {A : Type} (e : JsError) (h : Heap) (Q : A → Heap → Prop) :
  returns (throw e) h Q.
Proof. by split. Qed.

Lemma returns_bind {A B : Type} (c : M Heap A) (k : A → M Heap B) (h : Heap)
    (Q : B → Heap → Prop) :
  returns c h (λ a h1, h ⊆ h1 → returns (k a) h1 Q) → returns (bind c k) h Q.
Proof.
  unfold returns, bind. destruct (c h) as [[a|e] h1]; cbn; [| done].
  intros [Hsub Hk]. destruct (Hk Hsub) as [Hsub' HQ]. split; [| done].
  by transitivity h1.
Qed.

Lemma returns_mono {A : Type} (c : M Heap A) (h : Heap) (Q Q' : A → Heap → Prop) :
  returns c h Q → (∀ a h', h ⊆ h' → Q a h' → Q' a h') → returns c h Q'.
Proof.
  unfold returns. intros [Hsub HQ] Himp. split; [done |].
  destruct (c h).1; [by apply Himp | done].
Qed.

Lemma returns_alloc (o : Object) (h : Heap) (Q : Value → Heap → Prop) :
  (∀ l, h !! l = None → Q (VRef l) (<[l := o]> h)) → returns (alloc o) h Q.
Proof.
  intros HQ. assert (h !! fresh (dom h) = None) as Hfresh.
  { apply not_elem_of_dom, is_fresh. }
  split; cbn.
  - by apply insert_subseteq.
  - by apply HQ.
Qed.

(** A read under a name that is not inherited: the own property, or
    [undefined]. *)
Lemma returns_get_prop (v : Value) (k : string) (h : Heap) (Q : Value → Heap → Prop) :
  inherited k = false →
  Q (default VUndefined (props_at h v ≫= (.!! k))) h → returns (get_prop v k) h Q.
Proof.
  intros Hk HQ. split; [done |]. unfold get_prop. cbn. rewrite Hk.
  destruct v; try done; by destruct (props_at h _ ≫= _).
Qed.

(** A read under any name writes nothing. *)
Lemma returns_get_prop_any (v : Value) (k : string) (h : Heap) (Q : Value → Heap → Prop) :
  (∀ x, Q x h) → returns (get_prop v k) h Q.
Proof. intros HQ. split; [done |]. unfold get_prop. cbn. by destruct v. Qed.

Lemma returns_own_props (v : Value) (h : Heap) (Q : gmap string Value → Heap → Prop) :
  Q (default ∅ (props_at h v)) h → returns (own_props v) h Q.
Proof. by split. Qed.

Lemma returns_iterate (v : Value) (h : Heap) (Q : list Value → Heap → Prop) :
  (∀ elems, elems_at h v = Some elems → Q elems h) → returns (iterate v) h Q.
Proof.
  intros HQ. split; [done |]. cbn. destruct (elems_at h v); [by apply HQ | done].
Qed.

(** [v || []] is [v] itself, or a new empty array. *)
Lemma returns_or_empty_array (v : Value) (h : Heap) :
  returns (or_empty_array v) h (λ a h',
    if truthy_value v then a = v ∧ h' = h else elems_at h' a = Some []).
Proof.
  unfold or_empty_array. destruct (truthy_value v).
  - by apply returns_ret.
  - apply returns_alloc. intros l Hl. cbn. by rewrite lookup_insert_eq.
Qed.

Variable auth : AuthConfig.
Variable stringify : string → string.
Variable fns : CreateAuthClosures.

Lemma validateConfig_frame (keystoneConfig : Value) (h : Heap) :
  returns (validateConfig auth stringify keystoneConfig) h (λ _ h', h' = h).
Proof.
  unfold validateConfig. apply returns_bind, returns_get_prop_any. intros listsObj _.
  apply returns_bind, returns_get_prop_any. intros listConfig _.
  destruct listConfig; try apply returns_throw;
    (apply returns_bind, returns_get_prop_any; intros fieldsObj _;
     apply returns_bind, returns_get_prop_any; intros identityFieldConfig _;
     destruct identityFieldConfig; first [apply returns_throw | by apply returns_ret]).
Qed.

Lemma elems_at_mono (h h' : Heap) (v : Value) (elems : list Value) :
  h ⊆ h' → elems_at h v = Some elems → elems_at h' v = Some elems.
Proof.
  intros Hsub. destruct v as [| | | | |l|]; try done. cbn.
  destruct (h !! l) as [o|] eqn:Hl; [| done].
  by rewrite (lookup_weaken _ _ _ _ Hl Hsub).
Qed.

Lemma returns_bind_post {A B : Type} (c : M Heap A) (k : A → M Heap B) (h : Heap)
    (P : A → Heap → Prop) (Q : B → Heap → Prop) :
  returns c h P →
  (∀ a h1, h ⊆ h1 → P a h1 → returns (k a) h1 Q) →
  returns (bind c k) h Q.
Proof.
  intros Hc Hk. apply returns_bind. eapply returns_mono; [exact Hc |].
  intros a h1 Hsub HP _. by apply Hk.
Qed.

Lemma returns_bind_frame {A B : Type} (c : M Heap A) (k : A → M Heap B) (h : Heap)
    (P : A → Heap → Prop) (Q : B → Heap → Prop) :
  returns c h P →
  (∀ a h1, h ⊆ h1 → returns (k a) h1 Q) →
  returns (bind c k) h Q.
Proof. intros Hc Hk. eapply returns_bind_post; [exact Hc |]. eauto. Qed.

(** Closes [h ⊆ h'] along the chain of allocations in the context. *)
Ltac heap_chain :=
  first [ done
        | by apply insert_subseteq
        | etrans; [eassumption |]; heap_chain ].

(** [withItemData] builds a new strategy object: a new [get], the other
    properties of the base strategy. *)
Lemma withItemData_spec (sessionStrategy : Value) (h : Heap) :
  returns (withItemData sessionStrategy) h (λ v h',
    fresh_in h v ∧
    ∃ props get',
      props_at h' v = Some props ∧
      props !! "get" = Some (VRef get') ∧
      h !! get' = None ∧ h' !! get' = Some (Fun WrappedGet) ∧
      ∀ k, k ≠ "get" → props !! k = default ∅ (props_at h sessionStrategy) !! k).
Proof.
  unfold withItemData.
  apply returns_bind, returns_own_props. intros _.
  apply returns_bind, returns_alloc. intros l1 Hl1 Hsub1.
  apply returns_bind, returns_own_props. intros _.
  apply returns_bind, returns_alloc. intros l2 Hl2 Hsub2.
  apply returns_alloc. intros l3 Hl3.
  assert (l3 ≠ l2) as Hne by (intros ->; by rewrite lookup_insert_eq in Hl3).
  split.
  { exists l3. split; [done |]. eapply lookup_weaken_None; [exact Hl3 | heap_chain]. }
  eexists _, l2. split_and!.
  - cbn. by rewrite lookup_insert_eq.
  - by rewrite lookup_insert_eq.
  - eapply lookup_weaken_None; [exact Hl2 | heap_chain].
  - rewrite lookup_insert_ne by done. by rewrite lookup_insert_eq.
  - intros k Hk. rewrite lookup_insert_ne by done.
    cbn. rewrite lookup_insert_eq. cbn. by rewrite lookup_delete_ne.
Qed.

(** [composedUi] builds a new [ui] object whose [publicPages] is a new
    array: the caller's pages, if any, followed by [publicPages]. *)
Lemma composedUi_spec (keystoneConfig callerUi : Value) (h : Heap) :
  returns (composedUi auth fns keystoneConfig callerUi) h (λ v h',
    fresh_in h v ∧
    ∃ props newPages pages,
      props_at h' v = Some props ∧
      props !! "enableSessionItem" = Some (VBool true) ∧
      props !! "publicPages" = Some newPages ∧
      fresh_in h newPages ∧
      elems_at h' newPages = Some (pages ++ (VString <$> publicPages auth))%list ∧
      let callerPages := default VUndefined (props_at h callerUi ≫= (.!! "publicPages")) in
      if truthy_value callerPages then elems_at h callerPages = Some pages else pages = []).
Proof.
  unfold composedUi.
  apply returns_bind, returns_own_props. intros _.
  apply returns_bind, returns_get_prop; [done |]. intros _.
  set (callerPages := default VUndefined _).
  eapply returns_bind_post; [apply returns_or_empty_array |].
  intros pagesArray h1 Hsub1 Hpa.
  apply returns_bind, returns_iterate. intros pages Hpages _.
  apply returns_bind, returns_alloc. intros l2 Hl2 Hsub2.
  apply returns_bind, returns_get_prop; [done |]. intros _.
  eapply returns_bind_frame; [apply returns_or_empty_array |].
  intros filesArray h3 Hsub3.
  apply returns_bind, returns_iterate. intros files _ _.
  apply returns_bind, returns_alloc. intros l4 Hl4 Hsub4.
  apply returns_bind, returns_alloc. intros l5 Hl5 Hsub5.
  apply returns_bind, returns_alloc. intros l6 Hl6 Hsub6.
  apply returns_alloc. intros l7 Hl7.
  split.
  { exists l7. split; [done |]. eapply lookup_weaken_None; [exact Hl7 | heap_chain]. }
  eexists _, (VRef l2), pages. split_and!.
  - cbn. by rewrite lookup_insert_eq.
  - rewrite lookup_insert_ne by done. by rewrite lookup_insert_eq.
  - rewrite !lookup_insert_ne by done. by rewrite lookup_insert_eq.
  - exists l2. split; [done |]. eapply lookup_weaken_None; [exact Hl2 | heap_chain].
  - eapply (elems_at_mono (<[l2 := _]> h1)); [heap_chain | ].
    cbn. by rewrite lookup_insert_eq.
  - cbv zeta. fold callerPages. destruct (truthy_value callerPages).
    + destruct Hpa as [-> ->]. done.
    + rewrite Hpa in Hpages. by injection Hpages.
Qed.

Lemma withAuth_returns_fresh (h : Heap) (keystoneConfig lv : Value)
    (cprops lprops : gmap string Value) :
  props_at h keystoneConfig = Some cprops →
  cprops !! "lists" = Some lv →
  props_at h lv = Some lprops →
  returns (OnHeap.withAuth auth stringify fns keystoneConfig) h (λ v h',
    fresh_in h v ∧
    ∃ props newLists ui' session',
      props_at h' v = Some props ∧
      props !! "lists" = Some newLists ∧
      fresh_in h newLists ∧
      props_at h' newLists = Some lprops ∧
      (∀ k, k ∉ ["ui"; "session"; "lists"; "extendGraphqlSchema"] →
            props !! k = cprops !! k) ∧
      props !! "ui" = Some ui' ∧
      (let callerUi := default VUndefined (cprops !! "ui") in
       if truthy_value callerUi then fresh_in h ui' else ui' = callerUi) ∧
      props !! "session" = Some session' ∧
      (let callerSession := default VUndefined (cprops !! "session") in
       if truthy_value callerSession && truthy_opt (sessionData auth)
       then fresh_in h session' else session' = callerSession)).
Proof.
  intros Hc Hl Hlp. unfold OnHeap.withAuth.
  eapply returns_bind_frame; [apply validateConfig_frame |].
  intros _ h1 Hsub1.
  apply returns_bind, returns_get_prop; [done |]. intros _.
  rewrite (props_at_mono _ _ _ _ Hsub1 Hc). cbn [mbind option_bind default from_option id].
  set (callerUi := default VUndefined (cprops !! "ui")).
  eapply (returns_bind_post _ _ _
            (λ ui' _, if truthy_value callerUi then fresh_in h1 ui' else ui' = callerUi)).
  { destruct (truthy_value callerUi).
    - eapply returns_mono; [apply composedUi_spec |]. by intros ? ? ? [? _].
    - by apply returns_ret. }
  intros ui' h2 Hsub2 Hui.
  apply returns_bind, returns_get_prop; [done |]. intros _.
  assert (h ⊆ h2) as Hsub02 by heap_chain.
  rewrite (props_at_mono _ _ _ _ Hsub02 Hc). cbn [mbind option_bind default from_option id].
  set (callerSession := default VUndefined (cprops !! "session")).
  eapply (returns_bind_post _ _ _
            (λ s' _, if truthy_value callerSession && truthy_opt (sessionData auth)
                     then fresh_in h2 s' else s' = callerSession)).
  { destruct (_ && _).
    - eapply returns_mono; [apply withItemData_spec |]. by intros ? ? ? [? _].
    - by apply returns_ret. }
  intros session' h3 Hsub3 Hsession.
  assert (h ⊆ h3) as Hsub by heap_chain.
  apply returns_bind, returns_get_prop; [done |]. intros _.
  rewrite (props_at_mono _ _ _ _ Hsub Hc). cbn [mbind option_bind default from_option id].
  set (existing := default VUndefined (cprops !! "extendGraphqlSchema")).
  apply returns_bind, returns_own_props. intros _.
  apply returns_bind, returns_get_prop; [done |]. intros _.
  rewrite !(props_at_mono _ _ _ _ Hsub Hc). cbn [mbind option_bind default from_option id].
  rewrite Hl. cbn [default from_option id].
  apply returns_bind, returns_own_props. intros _.
  rewrite (props_at_mono _ _ _ _ Hsub Hlp). cbn [default from_option id].
  apply returns_bind, returns_alloc. intros l4 Hl4 Hsub4.
  eapply returns_bind_frame with (P := λ _ _, True).
  { destruct (truthy_value existing); [by apply returns_alloc | by apply returns_ret]. }
  intros extend h5 Hsub5.
  apply returns_alloc. intros l6 Hl6.
  split.
  { exists l6. split; [done |]. eapply lookup_weaken_None; [exact Hl6 | heap_chain]. }
  eexists _, (VRef l4), ui', session'. split_and!.
  - cbn. by rewrite lookup_insert_eq.
  - rewrite lookup_insert_ne by done. by rewrite lookup_insert_eq.
  - exists l4. split; [done |]. eapply lookup_weaken_None; [exact Hl4 | heap_chain].
  - apply (props_at_mono h5); [by apply insert_subseteq |].
    apply (props_at_mono (<[l4 := Obj lprops]> h3)); [done |].
    cbn. by rewrite lookup_insert_eq.
  - intros k Hk. rewrite !lookup_insert_ne; [done | ..];
      intros <-; apply Hk; set_solver.
  - rewrite !lookup_insert_ne by done. by rewrite lookup_insert_eq.
  - cbv zeta. fold callerUi. destruct (truthy_value callerUi); [| done].
    eapply fresh_in_mono; [exact Hsub1 | done].
  - rewrite !lookup_insert_ne by done. by rewrite lookup_insert_eq.
  - cbv zeta. fold callerSession. destruct (_ && _); [| done].
    eapply fresh_in_mono; [exact Hsub02 | done].
Qed.

(** C9. For a configuration object with a [lists] object, in any heap:
    [withAuth] leaves every object of the heap as it was, whether it
    returns or throws; the configuration it returns is a new object and
    not the caller's; its [lists] is a new object with the properties of
    the caller's [lists]; and its properties other than [ui], [session],
    [lists] and [extendGraphqlSchema] are the caller's. *)
Theorem withAuth_does_not_mutate (h : Heap) (keystoneConfig lv : Value)
    (cprops lprops : gmap string Value) :
  props_at h keystoneConfig = Some cprops →
  cprops !! "lists" = Some lv →
  props_at h lv = Some lprops →
  let r := OnHeap.withAuth auth stringify fns keystoneConfig h in
  (∀ l o, h !! l = Some o → r.2 !! l = Some o) ∧
  (∀ v, r.1 = Normal v →
     fresh_in h v ∧ v ≠ keystoneConfig ∧
     ∃ props newLists,
       props_at r.2 v = Some props ∧
       props !! "lists" = Some newLists ∧
       fresh_in h newLists ∧ newLists ≠ lv ∧
       props_at r.2 newLists = Some lprops ∧
       ∀ k, k ∉ ["ui"; "session"; "lists"; "extendGraphqlSchema"] →
            props !! k = cprops !! k).
Proof.
  intros Hc Hl Hlp r.
  destruct (withAuth_returns_fresh h keystoneConfig lv cprops lprops Hc Hl Hlp)
    as [Hsub Hret].
  fold r in Hsub, Hret. split.
  - intros l o Ho. by apply (lookup_weaken h).
  - intros v Hv. rewrite Hv in Hret.
    destruct Hret as (Hfresh & props & newLists & ui' & session' & Hp & Hlists & Hfresh'
                      & Hcopy & Hother & _).
    split; [done |]. split; [by eapply fresh_in_not_props |].
    exists props, newLists. repeat split; try done.
    by eapply fresh_in_not_props.
Qed.

(** X21. On the heap, the returned [ui] and [session] are the caller's own
    values when [withAuth] does not compose them ([ui] falsy; [session]
    or [sessionData] falsy), and new objects when it does. *)
Lemma withAuth_heap_ui_session (h : Heap) (keystoneConfig lv : Value)
    (cprops lprops : gmap string Value) :
  props_at h keystoneConfig = Some cprops →
  cprops !! "lists" = Some lv →
  props_at h lv = Some lprops →
  let r := OnHeap.withAuth auth stringify fns keystoneConfig h in
  let callerUi := default VUndefined (cprops !! "ui") in
  let callerSession := default VUndefined (cprops !! "session") in
  ∀ v, r.1 = Normal v →
    ∃ props ui' session',
      props_at r.2 v = Some props ∧
      props !! "ui" = Some ui' ∧
      (if truthy_value callerUi then fresh_in h ui' else ui' = callerUi) ∧
      props !! "session" = Some session' ∧
      (if truthy_value callerSession && truthy_opt (sessionData auth)
       then fresh_in h session' else session' = callerSession).
Proof.
  intros Hc Hl Hlp r callerUi callerSession v Hv.
  destruct (withAuth_returns_fresh h keystoneConfig lv cprops lprops Hc Hl Hlp)
    as [_ Hret].
  fold r in Hret. rewrite Hv in Hret.
  destruct Hret as (_ & props & newLists & ui' & session' & Hp & _ & _ & _ & _
                    & Hui & Hui' & Hs & Hs').
  by exists props, ui', session'.
Qed.

End HeapFrame.


Lemma withAuth_does_not_mutate_witness :
  let r := OnHeap.withAuth auth0 (JSON_stringify env0) OnHeap.fns0 (VRef 1) OnHeap.heap0 in
  OnHeap.props_at OnHeap.heap0 (VRef 1) = Some OnHeap.config_props0 ∧
  OnHeap.config_props0 !! "lists" = Some (VRef 2) ∧
  OnHeap.props_at OnHeap.heap0 (VRef 2) = Some {[ "User" := VRef 3 ]} ∧
  r.1 = Normal (VRef 27) ∧
  OnHeap.fresh_in OnHeap.heap0 (VRef 27) ∧
  ∀ l o, OnHeap.heap0 !! l = Some o → r.2 !! l = Some o.
Proof.
  intros r.
  assert (OnHeap.props_at OnHeap.heap0 (VRef 1) = Some OnHeap.config_props0) as H1
    by (vm_compute; reflexivity).
  assert (OnHeap.config_props0 !! "lists" = Some (VRef 2)) as H2
    by (vm_compute; reflexivity).
  assert (OnHeap.props_at OnHeap.heap0 (VRef 2) = Some {[ "User" := VRef 3 ]}) as H3
    by (vm_compute; reflexivity).
  assert (r.1 = Normal (VRef 27)) as Hv by (vm_compute; reflexivity).
  pose proof (withAuth_does_not_mutate auth0 (JSON_stringify env0) OnHeap.fns0 OnHeap.heap0 (VRef 1) (VRef 2)
                _ _ H1 H2 H3) as Hframe.
  cbv zeta in Hframe. fold r in Hframe. destruct Hframe as [Hframe Hnew].
  destruct (Hnew _ Hv) as (Hfresh & _).
  repeat split; assumption.
Defined.

(** The composed objects of that run: ten public pages, the eight of
    [publicPages] after the caller's two, in an array of their own. *)
Example withAuth_heap_publicPages :
  let r := OnHeap.withAuth auth0 (JSON_stringify env0) OnHeap.fns0 (VRef 1) OnHeap.heap0 in
  let ui' := default VUndefined (OnHeap.props_at r.2 (VRef 27) ≫= (.!! "ui")) in
  let pages := default VUndefined (OnHeap.props_at r.2 ui' ≫= (.!! "publicPages")) in
  OnHeap.elems_at r.2 pages
    = Some (VString <$> (["/welcome"; "/about"] ++ publicPages auth0)%list) ∧
  OnHeap.fresh_in OnHeap.heap0 ui' ∧ OnHeap.fresh_in OnHeap.heap0 pages ∧
  OnHeap.elems_at r.2 (VRef 5) = Some [VString "/welcome"; VString "/about"] ∧
  (∃ l, OnHeap.props_at r.2 (VRef 27) ≫= (.!! "extendGraphqlSchema") = Some (VRef l) ∧
        r.2 !! l = Some (Fun (ComposedExtendGraphqlSchema (VRef 9)))).
Proof.
  cbv zeta. split; [vm_compute; reflexivity |]. split; [| split; [| split]].
  - eexists. split; vm_compute; reflexivity.
  - eexists. split; vm_compute; reflexivity.
  - vm_compute; reflexivity.
  - eexists. split; vm_compute; reflexivity.
Qed.

(** * Further properties of [createAuth] *)

(** ** Generated GraphQL names *)

Lemma string_app_cons (c : ascii) (a b : string) :
  String c a +:+ b = String c (a +:+ b).
Proof. reflexivity. Qed.

Lemma string_app_nil (b : string) : "" +:+ b = b.
Proof. reflexivity. Qed.

Lemma string_app_length (a b : string) :
  String.length (a +:+ b) = String.length a + String.length b.
Proof.
  induction a as [|c a IH]; [done |].
  rewrite string_app_cons. cbn. by rewrite IH.
Qed.

Lemma string_app_inj_l (a x y : string) : a +:+ x = a +:+ y → x = y.
Proof.
  induction a as [|c a IH]; [done |].
  rewrite !string_app_cons. intros [= H]. by apply IH.
Qed.

Lemma string_app_inj_r (x y b : string) : x +:+ b = y +:+ b → x = y.
Proof.
  revert y. induction x as [|c x IH]; intros [|d y] H.
  - done.
  - apply (f_equal String.length) in H.
    rewrite string_app_nil, string_app_cons in H. cbn in H.
    rewrite string_app_length in H. lia.
  - apply (f_equal String.length) in H.
    rewrite string_app_nil, string_app_cons in H. cbn in H.
    rewrite string_app_length in H. lia.
  - rewrite !string_app_cons in H. injection H as -> H. f_equal. by apply IH.
Qed.

Lemma string_app_ne_self (a b : string) : b ≠ "" → a ≠ a +:+ b.
Proof.
  intros Hb H. apply (f_equal String.length) in H. rewrite string_app_length in H.
  destruct b; [done |]. cbn in H. lia.
Qed.

(** X1. Every generated GraphQL name determines the list key: two
    [createAuth] configurations that agree on any one of the six names
    have the same [listKey]. *)
Theorem gqlNames_injective (a b : AuthConfig) :
  authenticateItemWithPassword (gqlNames a) = authenticateItemWithPassword (gqlNames b)
  ∨ ItemAuthenticationWithPasswordResult (gqlNames a)
      = ItemAuthenticationWithPasswordResult (gqlNames b)
  ∨ ItemAuthenticationWithPasswordSuccess (gqlNames a)
      = ItemAuthenticationWithPasswordSuccess (gqlNames b)
  ∨ ItemAuthenticationWithPasswordFailure (gqlNames a)
      = ItemAuthenticationWithPasswordFailure (gqlNames b)
  ∨ CreateInitialInput (gqlNames a) = CreateInitialInput (gqlNames b)
  ∨ createInitialItem (gqlNames a) = createInitialItem (gqlNames b) →
  listKey a = listKey b.
Proof.
  unfold gqlNames. cbn [authenticateItemWithPassword ItemAuthenticationWithPasswordResult
    ItemAuthenticationWithPasswordSuccess ItemAuthenticationWithPasswordFailure
    CreateInitialInput createInitialItem].
  intros [H | [H | [H | [H | [H | H]]]]].
  - apply string_app_inj_l in H. by apply string_app_inj_r in H.
  - by apply string_app_inj_r in H.
  - by apply string_app_inj_r in H.
  - by apply string_app_inj_r in H.
  - apply string_app_inj_l in H. by apply string_app_inj_r in H.
  - by apply string_app_inj_l in H.
Qed.

Lemma gqlNames_injective_witness :
  CreateInitialInput (gqlNames auth0) = "CreateInitialUserInput" ∧
  listKey auth0 = listKey auth0.
Proof.
  split; [reflexivity |].
  apply (gqlNames_injective auth0 auth0). do 4 right. left. reflexivity.
Defined.

(** X2. For every list key the six generated names are pairwise distinct:
    no two operations or types of one list collide. *)
Theorem gqlNames_distinct (auth : AuthConfig) :
  NoDup [ authenticateItemWithPassword (gqlNames auth);
          ItemAuthenticationWithPasswordResult (gqlNames auth);
          ItemAuthenticationWithPasswordSuccess (gqlNames auth);
          ItemAuthenticationWithPasswordFailure (gqlNames auth);
          CreateInitialInput (gqlNames auth);
          createInitialItem (gqlNames auth) ].
Proof.
  unfold gqlNames. cbn [authenticateItemWithPassword ItemAuthenticationWithPasswordResult
    ItemAuthenticationWithPasswordSuccess ItemAuthenticationWithPasswordFailure
    CreateInitialInput createInitialItem].
  repeat (apply NoDup_cons; split); [.. | apply NoDup_nil_2];
    rewrite ?elem_of_cons, elem_of_nil; intros H;
    repeat (destruct H as [H | H]); try done;
    first
      [ by apply string_app_inj_l in H
      | apply (f_equal String.length) in H;
        rewrite ?string_app_length in H; cbn in H; lia ].
Qed.

(** ** More on the Access Decision Engine *)

Section PageMiddlewareMore.

Context {World GraphQLSchema : Type}.
Variable env : Collaborators World GraphQLSchema.
Variable auth : AuthConfig.

Lemma string_app_assoc (a b c : string) : (a +:+ b) +:+ c = a +:+ (b +:+ c).
Proof.
  induction a as [|x a IH]; [done |]. rewrite !string_app_cons. by rewrite IH.
Qed.

(** A path under the auth API of the mount path contains its prefix. *)
Lemma includes_mount_prefix (mountPath tail : string) :
  includes (mountPath +:+ "/api/auth/" +:+ tail) (mountPath +:+ "/api/auth/") = true.
Proof. apply prefix_includes, prefix_app. exists tail. by rewrite string_app_assoc. Qed.

(** Every public page contains the auth-API prefix. *)
Lemma publicPages_include_prefix (p : string) :
  p ∈ publicPages auth → includes p (keystonePath auth +:+ "/api/auth/") = true.
Proof.
  unfold publicPages. rewrite !elem_of_cons, elem_of_nil.
  intros [-> | [-> | [-> | [-> | [-> | [-> | [-> | [-> | []]]]]]]]].
  - exact (includes_mount_prefix _ "csrf").
  - exact (includes_mount_prefix _ "signin").
  - exact (includes_mount_prefix _ "signin/auth0").
  - exact (includes_mount_prefix _ "callack").
  - exact (includes_mount_prefix _ "callback/auth0").
  - exact (includes_mount_prefix _ "session").
  - exact (includes_mount_prefix _ "providers").
  - exact (includes_mount_prefix _ "signout").
Qed.

(** What a redirect of [pageMiddleware] tells about the request. *)
Lemma pageMiddleware_redirect_cases (args : PageMiddlewareArgs World) (t : string)
    (w w' : World) :
  pageMiddleware env auth args w = (Normal (Some (Redirect t)), w') →
  ∃ p, request_pathname env (req (context args)) = Normal (Some p) ∧
    ((isValidSession args = true ∧ p = keystonePath auth +:+ "/api/auth/signin"
      ∧ t = keystonePath auth)
     ∨ (isValidSession args = false ∧ session (context args) = None
        ∧ includes p (keystonePath auth +:+ "/api/auth/") = false
        ∧ t = keystonePath auth +:+ "/api/auth/signin")).
Proof.
  unfold pageMiddleware, lift.
  destruct (request_pathname env (req (context args))) as [pathname|e]; [| done]. cbn.
  destruct (isValidSession args).
  - case_decide as Hp; [| done]. intros [= <- _]. exists (keystonePath auth +:+ "/api/auth/signin").
    split; [by rewrite Hp |]. by left.
  - destruct (session (context args)); [done |].
    destruct pathname as [p|]; [| done]. cbn.
    destruct (includes p _) eqn:Hinc; [done |]. cbn. intros [= <- _].
    exists p. split; [done |]. by right.
Qed.

(** X3. Every redirect of [pageMiddleware] is one of two: a request with
    a valid session whose pathname is the sign-in path is sent to the
    mount path; a request without a valid session, whose context holds no
    session and whose pathname does not contain the auth-API prefix, is
    sent to the sign-in page. So a request with a valid session is never
    sent to the sign-in page, and a redirect to the mount path only leaves
    the sign-in page. *)
Theorem pageMiddleware_redirect_inv (args : PageMiddlewareArgs World) (t : string)
    (w w' : World) :
  pageMiddleware env auth args w = (Normal (Some (Redirect t)), w') →
  ∃ p, request_pathname env (req (context args)) = Normal (Some p) ∧
    ((isValidSession args = true ∧ p = keystonePath auth +:+ "/api/auth/signin"
      ∧ t = keystonePath auth)
     ∨ (isValidSession args = false ∧ session (context args) = None
        ∧ includes p (keystonePath auth +:+ "/api/auth/") = false
        ∧ t = keystonePath auth +:+ "/api/auth/signin")).
Proof.
  unfold pageMiddleware, lift.
  destruct (request_pathname env (req (context args))) as [pathname|e]; [| done]. cbn.
  destruct (isValidSession args).
  - case_decide as Hp; [| done]. intros [= <- _].
    exists (keystonePath auth +:+ "/api/auth/signin").
    split; [by rewrite Hp |]. by left.
  - destruct (session (context args)); [done |].
    destruct pathname as [p|]; [| done]. cbn.
    destruct (includes p _) eqn:Hinc; [done |]. cbn. intros [= <- _].
    exists p. split; [done |]. by right.
Qed.

(** X4. The target of a redirect is let through: when [pageMiddleware]
    redirects a request to [t], a request of the same visitor (same
    validity, same session) whose pathname is [t] continues. This covers
    the sign-in redirect for every mount path, and the redirect to the
    mount path when that is a pathname; for an empty mount path the
    target is the empty string, which is the pathname of no request, and
    nothing is said about where that redirect leads. *)
Theorem pageMiddleware_redirect_target_continues (args args' : PageMiddlewareArgs World)
    (t : string) (w : World) :
  pageMiddleware env auth args w = (Normal (Some (Redirect t)), w) →
  request_pathname env (req (context args')) = Normal (Some t) →
  isValidSession args' = isValidSession args →
  session (context args') = session (context args) →
  pageMiddleware env auth args' w = (Normal None, w).
Proof.
  intros Hr Hp Hv Hs.
  apply pageMiddleware_redirect_cases in Hr
    as (p & _ & [(Hvalid & _ & ->) | (Hvalid & Hnone & _ & ->)]).
  - unfold pageMiddleware, lift. rewrite Hp, Hv, Hvalid. cbn.
    rewrite decide_False; [done |]. intros [= H]. by apply string_app_ne_self in H.
  - unfold pageMiddleware, lift. rewrite Hp, Hv, Hvalid, Hs, Hnone. cbn.
    pose proof (includes_mount_prefix (keystonePath auth) "signin") as Hinc.
    change ("/api/auth/" +:+ "signin") with "/api/auth/signin" in Hinc.
    by rewrite Hinc.
Qed.

(** X5. A request without a valid session for any of the eight public
    pages is let through, with or without a session in the context: the
    middleware never sends the identity provider's own routes to the
    sign-in page. *)
Theorem pageMiddleware_publicPages (args : PageMiddlewareArgs World) (p : string)
    (w : World) :
  p ∈ publicPages auth →
  request_pathname env (req (context args)) = Normal (Some p) →
  isValidSession args = false →
  pageMiddleware env auth args w = (Normal None, w).
Proof.
  intros Hin Hp Hv. unfold pageMiddleware, lift. rewrite Hp, Hv. cbn.
  destruct (session (context args)); [done |].
  by rewrite (publicPages_include_prefix p Hin).
Qed.

(** X6. Requests the middleware cannot read. Without a request or a
    request URL it throws a [TypeError], whatever the session. When the
    URL has no pathname ([null]), it lets the request through if the
    session is valid or the context holds a session, and throws a
    [TypeError] otherwise. *)
Theorem pageMiddleware_unreadable_request (args : PageMiddlewareArgs World) (w : World) :
  (req (context args) ≫= url = None →
     ∃ msg, pageMiddleware env auth args w = (Throw (TypeError msg), w)) ∧
  (request_pathname env (req (context args)) = Normal None →
     (isValidSession args = true ∨ session (context args) ≠ None →
        pageMiddleware env auth args w = (Normal None, w)) ∧
     (isValidSession args = false → session (context args) = None →
        ∃ msg, pageMiddleware env auth args w = (Throw (TypeError msg), w))).
Proof.
  split.
  - intros H. unfold pageMiddleware, lift, request_pathname. rewrite H. by eexists.
  - intros Hp. unfold pageMiddleware, lift. rewrite Hp. cbn. split.
    + intros [-> | Hs]; [done |].
      destruct (isValidSession args); [done |]. by destruct (session (context args)).
    + intros -> ->. by eexists.
Qed.

End PageMiddlewareMore.

Lemma pageMiddleware_redirect_inv_witness :
  let args := {| context := context0 (get_request "/dashboard" None) None 0;
                 isValidSession := false |} in
  pageMiddleware env0 auth0 args 3 = (Normal (Some (Redirect "/api/auth/signin")), 3) ∧
  ∃ p, request_pathname env0 (req (context args)) = Normal (Some p) ∧
       isValidSession args = false ∧ session (context args) = None.
Proof.
  split; [reflexivity |].
  destruct (pageMiddleware_redirect_inv env0 auth0
              {| context := context0 (get_request "/dashboard" None) None 0;
                 isValidSession := false |} "/api/auth/signin" 3 3 eq_refl)
    as (p & Hp & [(Hv & _) | (Hv & Hs & _)]); [discriminate Hv |].
  exists p. done.
Defined.

Lemma pageMiddleware_redirect_target_continues_witness :
  let anonymous (target : string) : PageMiddlewareArgs nat :=
    {| context := context0 (get_request target None) None 0; isValidSession := false |} in
  let signedIn (target : string) : PageMiddlewareArgs nat :=
    {| context := context0 (get_request target None) (Some alice) 0;
       isValidSession := true |} in
  (** the sign-in redirect and its target *)
  pageMiddleware env0 auth0 (anonymous "/dashboard") 3
    = (Normal (Some (Redirect "/api/auth/signin")), 3) ∧
  pageMiddleware env0 auth0 (anonymous "/api/auth/signin") 3 = (Normal None, 3) ∧
  (** the redirect to the mount path [/admin] and its target *)
  pageMiddleware env0 auth_admin (signedIn "/admin/api/auth/signin") 3
    = (Normal (Some (Redirect "/admin")), 3) ∧
  pageMiddleware env0 auth_admin (signedIn "/admin") 3 = (Normal None, 3).
Proof.
  intros anonymous signedIn.
  split; [reflexivity |]. split; [| split; [reflexivity |]].
  - apply (pageMiddleware_redirect_target_continues env0 auth0
             (anonymous "/dashboard") _ "/api/auth/signin" 3); reflexivity.
  - apply (pageMiddleware_redirect_target_continues env0 auth_admin
             (signedIn "/admin/api/auth/signin") _ "/admin" 3); reflexivity.
Defined.

(** With an empty mount path the redirect of a signed-in visitor leaves
    the sign-in page for the empty string, which [url.parse] gives as the
    pathname of no request target. *)
Example pageMiddleware_empty_mount_redirect :
  pageMiddleware env0 auth0
    {| context := context0 (get_request "/api/auth/signin" None) (Some alice) 0;
       isValidSession := true |} 3 = (Normal (Some (Redirect "")), 3) ∧
  ∀ u, origin_form_pathname u ≠ Some "".
Proof.
  split; [reflexivity |]. intros u. unfold origin_form_pathname.
  destruct (split_at is_query_or_hash u).1; [done |]. cbn. discriminate.
Qed.

Lemma pageMiddleware_publicPages_witness :
  let args := {| context := context0 (get_request "/api/auth/callback/auth0?code=1" None) None 0;
                 isValidSession := false |} in
  "/api/auth/callback/auth0" ∈ publicPages auth0 ∧
  pageMiddleware env0 auth0 args 3 = (Normal None, 3).
Proof.
  assert ("/api/auth/callback/auth0" ∈ publicPages auth0) as Hin.
  { unfold publicPages. rewrite !elem_of_cons. do 4 right. left. reflexivity. }
  split; [exact Hin |].
  apply (pageMiddleware_publicPages env0 auth0 _ "/api/auth/callback/auth0" 3 Hin);
    reflexivity.
Defined.

Lemma pageMiddleware_unreadable_request_witness :
  let args := {| context := {| req := None; session := Some alice;
                               sudo_lists_count := λ _, ret 0 |};
                 isValidSession := true |} in
  req (context args) ≫= url = None ∧
  ∃ msg, pageMiddleware env0 auth0 args 3 = (Throw (TypeError msg), 3).
Proof.
  split; [reflexivity |].
  apply (proj1 (pageMiddleware_unreadable_request env0 auth0
                  {| context := {| req := None; session := Some alice;
                                   sudo_lists_count := λ _, ret 0 |};
                     isValidSession := true |} 3)).
  reflexivity.
Defined.

(** ** More on the composed middleware and predicate *)

Section ComposedMore.

Context {World GraphQLSchema : Type}.
Variable env : Collaborators World GraphQLSchema.
Variable auth : AuthConfig.

(** The middleware [withAuth] installs, by cases on this module's decision. *)
Lemma composedPageMiddleware_cases (cfg : KeystoneConfig World GraphQLSchema)
    (args : PageMiddlewareArgs World) (w : World) :
  composedPageMiddleware env auth cfg args w =
    match pageMiddleware env auth args w with
    | (Normal None, w') =>
        match ui cfg ≫= ui_pageMiddleware with
        | Some callerPageMiddleware => callerPageMiddleware args w'
        | None => (Normal None, w')
        end
    | decided => decided
    end.
Proof.
  unfold composedPageMiddleware, bind.
  destruct (pageMiddleware env auth args w) as [[[r|]|e] w']; try done.
  destruct (ui cfg) as [callerUi|]; cbn; [| reflexivity].
  destruct (ui_pageMiddleware callerUi); reflexivity.
Qed.

(** X7. When the caller's [ui] has no [pageMiddleware], the middleware
    [withAuth] installs decides exactly as this module's
    [pageMiddleware]. *)
Theorem withAuth_pageMiddleware_alone (cfg cfg' : KeystoneConfig World GraphQLSchema)
    (callerUi : AdminUIConfig World) :
  ui cfg = Some callerUi →
  ui_pageMiddleware callerUi = None →
  withAuth env auth cfg = Normal cfg' →
  ∃ composed, ui cfg' ≫= ui_pageMiddleware = Some composed ∧
    ∀ args w, composed args w = pageMiddleware env auth args w.
Proof.
  intros Hui Hm H. apply withAuth_inv in H as (_ & _ & -> & _).
  rewrite Hui. eexists. split; [reflexivity |].
  intros args w. rewrite composedPageMiddleware_cases.
  destruct (pageMiddleware env auth args w) as [[[r|]|e] w']; try done.
  rewrite Hui. cbn. by rewrite Hm.
Qed.

(** X8. When this module's decision is a redirect, or [pageMiddleware]
    throws, the installed middleware returns just that and leaves the
    outside world as it was: the caller's middleware, whatever it would
    do, is not run. *)
Theorem withAuth_pageMiddleware_short_circuit
    (cfg cfg' : KeystoneConfig World GraphQLSchema) (callerUi : AdminUIConfig World) :
  ui cfg = Some callerUi →
  withAuth env auth cfg = Normal cfg' →
  ∃ composed, ui cfg' ≫= ui_pageMiddleware = Some composed ∧
    ∀ args w, (pageMiddleware env auth args w).1 ≠ Normal None →
      composed args w = pageMiddleware env auth args w ∧ (composed args w).2 = w.
Proof.
  intros Hui H. apply withAuth_inv in H as (_ & _ & -> & _).
  rewrite Hui. eexists. split; [reflexivity |].
  intros args w Hd. rewrite composedPageMiddleware_cases.
  pose proof (pageMiddleware_pure env auth args w) as Hw.
  destruct (pageMiddleware env auth args w) as [[[r|]|e] w']; done.
Qed.

(** X9. In the bootstrap window the installed [isAccessAllowed] answers
    [true] right after the count: the caller's predicate is not run,
    whatever it would answer or do. *)
Theorem isAccessAllowed_window_skips_caller (cfg : KeystoneConfig World GraphQLSchema)
    (ctx : KeystoneContext World) (w : World) :
  bootstrap_window env auth ctx w →
  isAccessAllowed env auth cfg ctx w
    = (Normal true, (sudo_lists_count ctx (listKey auth) w).2).
Proof.
  intros (r & u & Hr & Ht & Hn & Hpath & Hhost & Hc).
  unfold isAccessAllowed, accessingInitPage, bind, lift, thisUrl.
  rewrite Hr, Ht, Hn. cbn. rewrite Hpath, Hhost.
  rewrite !bool_decide_eq_true_2 by done. cbn.
  destruct (sudo_lists_count ctx (listKey auth) w) as [[n|e] w']; cbn in *; [| done].
  by injection Hc as ->.
Qed.

(** X10. A referer header that [new URL] rejects makes the installed
    [isAccessAllowed] throw a [TypeError], even for a request with a
    session: neither the count nor the caller's predicate is run. *)
Theorem isAccessAllowed_invalid_referer (cfg : KeystoneConfig World GraphQLSchema)
    (ctx : KeystoneContext World) (r : string) (w : World) :
  (headers <$> req ctx) ≫= referer = Some r →
  truthy r = true →
  new_URL env r = None →
  ∃ msg, isAccessAllowed env auth cfg ctx w = (Throw (TypeError msg), w).
Proof.
  intros Hr Ht Hn. unfold isAccessAllowed, accessingInitPage, bind, lift, thisUrl.
  rewrite Hr, Ht, Hn. by eexists.
Qed.

(** X11. When the referer is the init page of the request's host and the
    privileged count fails, the installed [isAccessAllowed] fails with the
    same error: it does not fall back on the caller's predicate or on the
    session. *)
Theorem isAccessAllowed_count_failure (cfg : KeystoneConfig World GraphQLSchema)
    (ctx : KeystoneContext World) (r : string) (u : URL) (e : JsError) (w w' : World) :
  (headers <$> req ctx) ≫= referer = Some r →
  truthy r = true →
  new_URL env r = Some u →
  URL_pathname u = "/init" →
  request_host (headers <$> req ctx) = Some (URL_host u) →
  sudo_lists_count ctx (listKey auth) w = (Throw e, w') →
  isAccessAllowed env auth cfg ctx w = (Throw e, w').
Proof.
  intros Hr Ht Hn Hpath Hhost Hc.
  unfold isAccessAllowed, accessingInitPage, bind, lift, thisUrl.
  rewrite Hr, Ht, Hn. cbn. rewrite Hpath, Hhost.
  rewrite !bool_decide_eq_true_2 by done. cbn. by rewrite Hc.
Qed.

(** X12. No database query on ordinary requests: when the request has no
    referer (no request, no header, an empty header), or the referer's
    path is not [/init], or its host is not the request's host, the
    installed [isAccessAllowed] does not run the count; it is the caller's
    predicate in the same world, or else whether the session is defined. *)
Theorem isAccessAllowed_without_count (cfg : KeystoneConfig World GraphQLSchema)
    (ctx : KeystoneContext World) (w : World) :
  truthy_opt ((headers <$> req ctx) ≫= referer) = false
  ∨ (∃ r u, (headers <$> req ctx) ≫= referer = Some r ∧ new_URL env r = Some u ∧
            (URL_pathname u ≠ "/init"
             ∨ request_host (headers <$> req ctx) ≠ Some (URL_host u))) →
  isAccessAllowed env auth cfg ctx w =
    match ui cfg ≫= ui_isAccessAllowed with
    | Some callerIsAccessAllowed => callerIsAccessAllowed ctx w
    | None => (Normal (bool_decide (session ctx ≠ None)), w)
    end.
Proof.
  intros H. apply isAccessAllowed_fallback.
  unfold accessingInitPage, bind, lift, thisUrl.
  destruct H as [H | (r & u & Hr & Hn & Hne)].
  - destruct ((headers <$> req ctx) ≫= referer) as [r|]; [| done].
    cbn in H. by rewrite H.
  - rewrite Hr, Hn. destruct (truthy r); [| done]. cbn.
    destruct Hne as [Hne | Hne].
    + rewrite bool_decide_eq_false_2; [done |]. by intros [= ?].
    + rewrite (bool_decide_eq_false_2 (Some (URL_host u) = _)); [| done].
      by rewrite andb_false_r.
Qed.

(** X13. Requests the wrapped [get] cannot read: without a request or a
    request URL, and for a URL without a pathname, it throws a
    [TypeError] and the identity provider is not asked. *)
Theorem withItemData_get_unreadable_request (base : SessionStrategy World)
    (r : option IncomingMessage) (w : World) :
  r ≫= url = None ∨ request_pathname env r = Normal None →
  ∃ msg, get (withItemData env base) r w = (Throw (TypeError msg), w).
Proof.
  intros [H | H]; unfold withItemData; cbn [get]; unfold bind, lift.
  - unfold request_pathname. rewrite H. by eexists.
  - rewrite H. by eexists.
Qed.

End ComposedMore.

Lemma withAuth_pageMiddleware_alone_witness :
  ui config_plain = Some callerUi_plain ∧
  ui_pageMiddleware callerUi_plain = None ∧
  ∃ cfg' composed,
    withAuth env0 auth0 config_plain = Normal cfg' ∧
    ui cfg' ≫= ui_pageMiddleware = Some composed ∧
    composed {| context := context0 (get_request "/dashboard" None) (Some alice) 0;
                isValidSession := true |} 4 = (Normal None, 4).
Proof.
  split; [reflexivity |]. split; [reflexivity |].
  destruct (withAuth env0 auth0 config_plain) as [cfg'|e] eqn:H; [| discriminate H].
  destruct (withAuth_pageMiddleware_alone env0 auth0 config_plain cfg' callerUi_plain
              eq_refl eq_refl H) as (composed & Hc & Hs).
  exists cfg', composed. split; [done |]. split; [done |]. apply Hs.
Defined.

Lemma withAuth_pageMiddleware_short_circuit_witness :
  let args := {| context := context0 (get_request "/dashboard" None) None 0;
                 isValidSession := false |} in
  ui config0 = Some callerUi0 ∧
  (pageMiddleware env0 auth0 args 4).1 ≠ Normal None ∧
  ∃ cfg' composed,
    withAuth env0 auth0 config0 = Normal cfg' ∧
    ui cfg' ≫= ui_pageMiddleware = Some composed ∧
    composed args 4 = (Normal (Some (Redirect "/api/auth/signin")), 4).
Proof.
  split; [reflexivity |]. split; [discriminate |].
  destruct (withAuth env0 auth0 config0) as [cfg'|e] eqn:H; [| discriminate H].
  destruct (withAuth_pageMiddleware_short_circuit env0 auth0 config0 cfg' callerUi0
              eq_refl H) as (composed & Hc & Hs).
  exists cfg', composed. split; [done |]. split; [done |].
  apply (Hs {| context := context0 (get_request "/dashboard" None) None 0;
               isValidSession := false |} 4). discriminate.
Defined.

Lemma isAccessAllowed_window_skips_caller_witness :
  let ctx := context0 (get_request "/api/graphql" (Some "http://localhost:3000/init")) None 0 in
  bootstrap_window env0 auth0 ctx 5 ∧
  callerPredicate ctx 5 = (Normal false, 105) ∧
  isAccessAllowed env0 auth0 config_predicate ctx 5 = (Normal true, 5).
Proof.
  assert (bootstrap_window env0 auth0
            (context0 (get_request "/api/graphql" (Some "http://localhost:3000/init")) None 0) 5)
    as Hopen.
  { exists "http://localhost:3000/init",
           {| URL_pathname := "/init"; URL_host := "localhost:3000" |}.
    repeat split; reflexivity. }
  split; [exact Hopen |]. split; [reflexivity |].
  exact (isAccessAllowed_window_skips_caller env0 auth0 config_predicate _ 5 Hopen).
Defined.

Lemma isAccessAllowed_invalid_referer_witness :
  let ctx := context0 (get_request "/api/graphql" (Some "not a url")) (Some alice) 0 in
  (headers <$> req ctx) ≫= referer = Some "not a url" ∧
  new_URL env0 "not a url" = None ∧
  ∃ msg, isAccessAllowed env0 auth0 config0 ctx 5 = (Throw (TypeError msg), 5).
Proof.
  split; [reflexivity |]. split; [reflexivity |].
  apply (isAccessAllowed_invalid_referer env0 auth0 config0 _ "not a url" 5); reflexivity.
Defined.

Lemma isAccessAllowed_count_failure_witness :
  let ctx := context_db_down (get_request "/api/graphql" (Some "http://localhost:3000/init"))
               (Some alice) in
  sudo_lists_count ctx (listKey auth0) 5 = (Throw (Error "database unavailable"), 6) ∧
  isAccessAllowed env0 auth0 config0 ctx 5 = (Throw (Error "database unavailable"), 6).
Proof.
  split; [reflexivity |].
  apply (isAccessAllowed_count_failure env0 auth0 config0 _ "http://localhost:3000/init"
           {| URL_pathname := "/init"; URL_host := "localhost:3000" |}); reflexivity.
Defined.

Lemma isAccessAllowed_without_count_witness :
  let ctx := context_db_down (get_request "/api/graphql" (Some "http://localhost:3000/users"))
               None in
  new_URL env0 "http://localhost:3000/users"
    = Some {| URL_pathname := "/users"; URL_host := "localhost:3000" |} ∧
  isAccessAllowed env0 auth0 config_predicate ctx 5 = (Normal false, 105).
Proof.
  split; [reflexivity |].
  apply (isAccessAllowed_without_count env0 auth0 config_predicate
           (context_db_down (get_request "/api/graphql" (Some "http://localhost:3000/users"))
              None) 5).
  right. exists "http://localhost:3000/users",
                {| URL_pathname := "/users"; URL_host := "localhost:3000" |}.
  split; [reflexivity |]. split; [reflexivity |]. left. discriminate.
Defined.

Lemma withItemData_get_unreadable_request_witness :
  request_pathname env0 (Some (get_request "?tab=1" None)) = Normal None ∧
  ∃ msg, get (withItemData env0 callerStrategy) (Some (get_request "?tab=1" None)) 0
         = (Throw (TypeError msg), 0).
Proof.
  split; [reflexivity |].
  apply (withItemData_get_unreadable_request env0 callerStrategy). right. reflexivity.
Defined.

(** ** More on [withAuth] *)

Section WithAuthMore.

Context {World GraphQLSchema : Type}.
Variable env : Collaborators World GraphQLSchema.
Variable auth : AuthConfig.

(** X14. The file generators of the returned [ui] are the caller's, in
    their order, followed by this module's single generator, so the files
    written are the caller's files followed by exactly two: the
    identity-provider route handler and [next.config.js], both in mode
    [write]. *)
Theorem withAuth_getAdditionalFiles (cfg cfg' : KeystoneConfig World GraphQLSchema)
    (callerUi : AdminUIConfig World) :
  ui cfg = Some callerUi →
  withAuth env auth cfg = Normal cfg' →
  let callerGenerators := default [] (ui_getAdditionalFiles callerUi) in
  ∃ generators,
    ui cfg' ≫= ui_getAdditionalFiles = Some generators ∧
    generators = (callerGenerators ++ [getAdditionalFiles env auth])%list ∧
    length generators = S (length callerGenerators) ∧
    ∃ handler config,
      mjoin ((λ generate, generate ()) <$> generators)
        = (mjoin ((λ generate, generate ()) <$> callerGenerators) ++ [handler; config])%list ∧
      outputPath handler = "pages/api/auth/[...nextauth].js" ∧
      outputPath config = "next.config.js" ∧
      mode handler = "write" ∧ mode config = "write".
Proof.
  intros Hui H callerGenerators. subst callerGenerators.
  apply withAuth_inv in H as (_ & _ & -> & _).
  rewrite Hui. eexists. split; [reflexivity |]. split; [reflexivity |]. split.
  - rewrite length_app. cbn [length]. lia.
  - eexists _, _. split.
    + rewrite fmap_app, join_app. cbn. reflexivity.
    + done.
Qed.

(** X15. [withAuth] accepts its own result: validation reads [lists]
    only, which [withAuth] passes on, so composing a second time never
    fails. The second composition is not a no-op: the eight public pages
    are appended once more and this module's schema extension is applied
    twice before the caller's. *)
Theorem withAuth_twice (cfg cfg1 : KeystoneConfig World GraphQLSchema) :
  withAuth env auth cfg = Normal cfg1 →
  ∃ cfg2,
    withAuth env auth cfg1 = Normal cfg2 ∧
    lists cfg2 = lists cfg ∧
    (∀ callerUi, ui cfg = Some callerUi →
       ui cfg2 ≫= ui_publicPages
         = Some ((default [] (ui_publicPages callerUi) ++ publicPages auth)
                 ++ publicPages auth)%list) ∧
    ∃ extend2,
      cfg_extendGraphqlSchema cfg2 = Some extend2 ∧
      ∀ schema,
        extend2 schema =
          match cfg_extendGraphqlSchema cfg with
          | Some existing =>
              existing (extendGraphqlSchema env auth (extendGraphqlSchema env auth schema))
          | None => extendGraphqlSchema env auth (extendGraphqlSchema env auth schema)
          end.
Proof.
  intros H. pose proof (withAuth_validated _ _ _ _ H) as Hv.
  apply withAuth_inv in H as (Hlists & _ & Hui & _ & Hext).
  assert (validateConfig env auth cfg1 = Normal ()) as Hv1.
  { unfold validateConfig in *. by rewrite Hlists. }
  destruct (withAuth_returns env auth cfg1 Hv1) as [cfg2 H2].
  exists cfg2. split; [done |].
  apply withAuth_inv in H2 as (Hlists2 & _ & Hui2 & _ & Hext2).
  split; [congruence |]. split.
  - intros callerUi Hc. rewrite Hui2, Hui, Hc. reflexivity.
  - eexists. split; [exact Hext2 |]. intros schema. rewrite Hext.
    by destruct (cfg_extendGraphqlSchema cfg).
Qed.

(** X16. Composing twice changes neither the access decisions nor the
    session: the middleware installed by the second [withAuth] decides
    every request as the one installed by the first, and the session
    strategy wrapped twice is the strategy wrapped once. *)
Theorem withAuth_twice_same_decisions (cfg cfg1 cfg2 : KeystoneConfig World GraphQLSchema)
    (callerUi : AdminUIConfig World) :
  ui cfg = Some callerUi →
  withAuth env auth cfg = Normal cfg1 →
  withAuth env auth cfg1 = Normal cfg2 →
  cfg_session cfg2 = cfg_session cfg1 ∧
  ∃ composed1 composed2,
    ui cfg1 ≫= ui_pageMiddleware = Some composed1 ∧
    ui cfg2 ≫= ui_pageMiddleware = Some composed2 ∧
    ∀ args w, composed2 args w = composed1 args w.
Proof.
  intros Hc H1 H2.
  apply withAuth_inv in H1 as (_ & _ & Hui1 & Hs1 & _).
  apply withAuth_inv in H2 as (_ & _ & Hui2 & Hs2 & _).
  split.
  - rewrite Hs2, Hs1. destruct (cfg_session cfg) as [s|]; [| done].
    by destruct (truthy_opt (sessionData auth)).
  - rewrite Hui2, Hui1, Hc. eexists _, _. split; [reflexivity |]. split; [reflexivity |].
    intros args w. rewrite (composedPageMiddleware_cases env auth cfg1).
    pose proof (pageMiddleware_pure env auth args w) as Hw.
    destruct (pageMiddleware env auth args w) as [[[r|]|e] w'] eqn:Hp.
    + by rewrite (composedPageMiddleware_cases env auth cfg args w), Hp.
    + cbn in Hw. subst w'. rewrite Hui1, Hc. reflexivity.
    + by rewrite (composedPageMiddleware_cases env auth cfg args w), Hp.
Qed.

End WithAuthMore.

Lemma withAuth_getAdditionalFiles_witness :
  ui config_plain = Some callerUi_plain ∧
  ∃ cfg' generators,
    withAuth env0 auth0 config_plain = Normal cfg' ∧
    ui cfg' ≫= ui_getAdditionalFiles = Some generators ∧
    length generators = 2.
Proof.
  split; [reflexivity |].
  destruct (withAuth env0 auth0 config_plain) as [cfg'|e] eqn:H; [| discriminate H].
  destruct (withAuth_getAdditionalFiles env0 auth0 config_plain cfg' callerUi_plain
              eq_refl H) as (generators & Hg & _ & Hlen & _).
  exists cfg', generators. done.
Defined.

Lemma withAuth_twice_witness :
  ∃ cfg1 cfg2,
    withAuth env0 auth0 config0 = Normal cfg1 ∧
    withAuth env0 auth0 cfg1 = Normal cfg2 ∧
    lists cfg2 = lists config0.
Proof.
  destruct (withAuth env0 auth0 config0) as [cfg1|e] eqn:H; [| discriminate H].
  destruct (withAuth_twice env0 auth0 config0 cfg1 H) as (cfg2 & H2 & Hl & _).
  by exists cfg1, cfg2.
Defined.

Lemma withAuth_twice_same_decisions_witness :
  ui config0 = Some callerUi0 ∧
  ∃ cfg1 cfg2,
    withAuth env0 auth0 config0 = Normal cfg1 ∧
    withAuth env0 auth0 cfg1 = Normal cfg2 ∧
    cfg_session cfg2 = cfg_session cfg1.
Proof.
  split; [reflexivity |].
  destruct (withAuth env0 auth0 config0) as [cfg1|e] eqn:H1; [| discriminate H1].
  destruct (withAuth env0 auth0 cfg1) as [cfg2|e] eqn:H2.
  - exists cfg1, cfg2. split; [done |]. split; [done |].
    exact (proj1 (withAuth_twice_same_decisions env0 auth0 config0 cfg1 cfg2 callerUi0
                    eq_refl H1 H2)).
  - exfalso. injection H1 as <-. discriminate H2.
Defined.

(** ** More on the heap: validation, [withItemData], the composed [ui] *)

Section HeapMore.

Import OnHeap.

Variable auth : AuthConfig.
Variable stringify : string → string.
Variable fns : CreateAuthClosures.

Lemma inherited_lists : inherited "lists" = false.
Proof. reflexivity. Qed.

Lemma inherited_fields : inherited "fields" = false.
Proof. reflexivity. Qed.

(** [validateConfig] only reads. *)
Lemma validateConfig_heap_unchanged (keystoneConfig : Value) (h : Heap) :
  (OnHeap.validateConfig auth stringify keystoneConfig h).2 = h.
Proof.
  unfold OnHeap.validateConfig, bind.
  destruct (get_prop keystoneConfig "lists" h) as [[listsObj|e] h1] eqn:E1;
    apply (f_equal snd) in E1; cbn in E1; subst h1; [| done].
  destruct (get_prop listsObj (listKey auth) h) as [[listConfig|e] h1] eqn:E2;
    apply (f_equal snd) in E2; cbn in E2; subst h1; [| done].
  destruct listConfig; try done;
    (destruct (get_prop _ "fields" h) as [[fieldsObj|e] h1] eqn:E3;
       apply (f_equal snd) in E3; cbn in E3; subst h1; [| done];
     destruct (get_prop fieldsObj (identityField auth) h) as [[f|e] h1] eqn:E4;
       apply (f_equal snd) in E4; cbn in E4; subst h1; [| done];
     by destruct f).
Qed.

(** X17. Validation on the caller's objects. For a configuration object:
    without a [lists] property the read [lists[listKey]] throws a
    [TypeError]; a list key that [lists] neither has nor inherits gives
    the "no list" [Error], and one it only inherits (such as
    [constructor]) a [TypeError]; a list without a [fields] property
    throws a [TypeError]; a field key that [fields] neither has nor
    inherits gives the "no field" [Error], and one it only inherits (such
    as [toString]) passes; a field it has passes. In every case the heap
    is left as it was. *)
Theorem validateConfig_heap_cases (keystoneConfig : Value) (h : Heap)
    (cprops : gmap string Value) :
  props_at h keystoneConfig = Some cprops →
  let r := OnHeap.validateConfig auth stringify keystoneConfig h in
  r.2 = h ∧
  (cprops !! "lists" = None → ∃ msg, r.1 = Throw (TypeError msg)) ∧
  (∀ lv lprops, cprops !! "lists" = Some lv → props_at h lv = Some lprops →
     (lprops !! listKey auth = None →
        if inherited (listKey auth)
        then ∃ msg, r.1 = Throw (TypeError msg)
        else r.1 = Throw (Error (msg_list (listKey auth)))) ∧
     (∀ lc lcprops, lprops !! listKey auth = Some lc → props_at h lc = Some lcprops →
        (lcprops !! "fields" = None → ∃ msg, r.1 = Throw (TypeError msg)) ∧
        (∀ fv fprops, lcprops !! "fields" = Some fv → props_at h fv = Some fprops →
           (fprops !! identityField auth = None →
              if inherited (identityField auth)
              then r.1 = Normal ()
              else r.1 = Throw (Error (msg_field (listKey auth)
                                         (stringify (identityField auth))))) ∧
           (∀ f fieldProps, fprops !! identityField auth = Some f →
              props_at h f = Some fieldProps → r.1 = Normal ())))).
Proof.
  intros Hc r. split; [apply validateConfig_heap_unchanged |].
  assert (∀ v p, props_at h v = Some p → ∃ l, v = VRef l) as Href.
  { intros [] p Hp; try done. by eexists. }
  destruct (Href _ _ Hc) as [lcfg ->].
  subst r. unfold OnHeap.validateConfig, bind, get_prop, throw, ret. cbn [fst snd].
  rewrite Hc, inherited_lists. cbn [mbind option_bind]. split.
  - intros ->. by eexists.
  - intros lv lprops -> Hlp. destruct (Href _ _ Hlp) as [ll ->].
    rewrite Hlp. cbn [mbind option_bind]. split.
    + intros ->. destruct (inherited (listKey auth)).
      * cbn. rewrite inherited_fields. by eexists.
      * done.
    + intros lc lcprops -> Hlcp. destruct (Href _ _ Hlcp) as [llc ->].
      rewrite Hlcp, inherited_fields. cbn [mbind option_bind]. split.
      * intros ->. by eexists.
      * intros fv fprops -> Hfp. destruct (Href _ _ Hfp) as [lf ->].
        rewrite Hfp. cbn [mbind option_bind]. split.
        -- intros ->. by destruct (inherited (identityField auth)).
        -- intros f fieldProps -> Hf. by destruct (Href _ _ Hf) as [? ->].
Qed.

(** X18. When validation fails, [withAuth] on the heap fails with the
    same error before it creates anything: the heap is exactly as it was. *)
Theorem withAuth_heap_invalid (keystoneConfig : Value) (h : Heap) (e : JsError) :
  (OnHeap.validateConfig auth stringify keystoneConfig h).1 = Throw e →
  OnHeap.withAuth auth stringify fns keystoneConfig h = (Throw e, h).
Proof.
  intros H. pose proof (validateConfig_heap_unchanged keystoneConfig h) as Hh.
  unfold OnHeap.withAuth, bind at 1.
  destruct (OnHeap.validateConfig auth stringify keystoneConfig h) as [o h'].
  cbn in H, Hh. by subst.
Qed.

(** X19. [withItemData] on the heap, for a strategy object: it always
    returns, the result is a new object, its [get] is a new function
    object, every other own property (whatever the strategy has beside
    [start] and [end]) is the base strategy's, and no object of the heap
    is written, the base strategy's included. *)
Theorem withItemData_heap (sessionStrategy : Value) (h : Heap)
    (sprops : gmap string Value) :
  props_at h sessionStrategy = Some sprops →
  let r := OnHeap.withItemData sessionStrategy h in
  ∃ v props get',
    r.1 = Normal v ∧ fresh_in h v ∧
    props_at r.2 v = Some props ∧
    props !! "get" = Some (VRef get') ∧
    h !! get' = None ∧ r.2 !! get' = Some (Fun WrappedGet) ∧
    (∀ k, k ≠ "get" → props !! k = sprops !! k) ∧
    (∀ l o, h !! l = Some o → r.2 !! l = Some o).
Proof.
  intros Hs r. destruct (withItemData_spec sessionStrategy h) as [Hsub Hret].
  fold r in Hsub, Hret.
  assert (∃ v, r.1 = Normal v) as [v Hv] by (by eexists).
  rewrite Hv in Hret.
  destruct Hret as (Hfresh & props & get' & Hp & Hget & Hnew & Hfun & Hother).
  exists v, props, get'. split_and!; try done.
  - intros k Hk. rewrite (Hother k Hk). by rewrite Hs.
  - intros l o Ho. by apply (lookup_weaken h).
Qed.

(** The [ui] object [withAuth] builds, seen from the returned
    configuration. *)
Lemma withAuth_returns_ui (h : Heap) (keystoneConfig lv callerUi : Value)
    (cprops lprops : gmap string Value) :
  props_at h keystoneConfig = Some cprops →
  cprops !! "lists" = Some lv →
  props_at h lv = Some lprops →
  cprops !! "ui" = Some callerUi →
  truthy_value callerUi = true →
  returns (OnHeap.withAuth auth stringify fns keystoneConfig) h (λ v h',
    ∃ props ui' uprops newPages pages,
      props_at h' v = Some props ∧
      props !! "ui" = Some ui' ∧ fresh_in h ui' ∧
      props_at h' ui' = Some uprops ∧
      uprops !! "enableSessionItem" = Some (VBool true) ∧
      uprops !! "publicPages" = Some newPages ∧
      fresh_in h newPages ∧
      elems_at h' newPages = Some (pages ++ (VString <$> publicPages auth))%list ∧
      let callerPages := default VUndefined (props_at h callerUi ≫= (.!! "publicPages")) in
      if truthy_value callerPages then elems_at h callerPages = Some pages else pages = []).
Proof.
  intros Hc Hl Hlp Hui Htruthy. unfold OnHeap.withAuth.
  eapply returns_bind_post; [apply validateConfig_frame |].
  intros _ h1 _ ->.
  apply returns_bind, returns_get_prop; [done |]. intros _.
  rewrite Hc. cbn [mbind option_bind default from_option id].
  rewrite Hui. cbn [default from_option id]. rewrite Htruthy.
  eapply returns_bind_post; [apply composedUi_spec |].
  intros ui' h2 Hsub2
    (Hfresh & uprops & newPages & pages & Hup & Henable & Hpages & Hfreshp & Helems & Hcaller).
  apply returns_bind, returns_get_prop; [done |]. intros _.
  eapply (returns_bind_frame _ _ _ (λ _ _, True)).
  { destruct (_ && _); [eapply returns_mono; [apply withItemData_spec | done]
                       | by apply returns_ret]. }
  intros session' h3 Hsub3.
  apply returns_bind, returns_get_prop; [done |]. intros _.
  apply returns_bind, returns_own_props. intros _.
  apply returns_bind, returns_get_prop; [done |]. intros _.
  apply returns_bind, returns_own_props. intros _.
  apply returns_bind, returns_alloc. intros l4 Hl4 Hsub4.
  eapply (returns_bind_frame _ _ _ (λ _ _, True)).
  { match goal with
    | |- returns (if truthy_value ?x then _ else _) _ _ => destruct (truthy_value x)
    end; [by apply returns_alloc | by apply returns_ret]. }
  intros extend h5 Hsub5.
  apply returns_alloc. intros l6 Hl6.
  assert (h2 ⊆ <[l6 := Obj (<["extendGraphqlSchema" := extend]>
                          (<["lists" := VRef l4]>
                          (<["session" := session']>
                          (<["ui" := ui']> (default ∅ (props_at h3 keystoneConfig))))))]> h5)
    as Hsub.
  { etrans; [exact Hsub3 |]. etrans; [exact Hsub4 |]. etrans; [exact Hsub5 |].
    by apply insert_subseteq. }
  eexists _, ui', uprops, newPages, pages. split_and!.
  - cbn. by rewrite lookup_insert_eq.
  - rewrite !lookup_insert_ne by done. by rewrite lookup_insert_eq.
  - done.
  - by apply (props_at_mono h2).
  - done.
  - done.
  - done.
  - by apply (elems_at_mono h2).
  - done.
Qed.

(** X20. On the heap, for a configuration with a [ui] object: the [ui]
    of the returned configuration is a new object with
    [enableSessionItem] set to [true], and its [publicPages] is a new
    array holding the elements of the caller's array (none when the
    caller has no array) followed by the eight public pages; the caller's
    array is not the one extended. *)
Theorem withAuth_heap_ui (h : Heap) (keystoneConfig lv callerUi : Value)
    (cprops lprops : gmap string Value) :
  props_at h keystoneConfig = Some cprops →
  cprops !! "lists" = Some lv →
  props_at h lv = Some lprops →
  cprops !! "ui" = Some callerUi →
  truthy_value callerUi = true →
  let r := OnHeap.withAuth auth stringify fns keystoneConfig h in
  let callerPages := default VUndefined (props_at h callerUi ≫= (.!! "publicPages")) in
  ∀ v, r.1 = Normal v →
    ∃ props ui' uprops newPages pages,
      props_at r.2 v = Some props ∧
      props !! "ui" = Some ui' ∧ fresh_in h ui' ∧
      props_at r.2 ui' = Some uprops ∧
      uprops !! "enableSessionItem" = Some (VBool true) ∧
      uprops !! "publicPages" = Some newPages ∧
      fresh_in h newPages ∧
      elems_at r.2 newPages = Some (pages ++ (VString <$> publicPages auth))%list ∧
      (if truthy_value callerPages then elems_at h callerPages = Some pages else pages = []) ∧
      elems_at r.2 callerPages = elems_at h callerPages.
Proof.
  intros Hc Hl Hlp Hui Htruthy r callerPages v Hv.
  destruct (withAuth_returns_ui h keystoneConfig lv callerUi cprops lprops
              Hc Hl Hlp Hui Htruthy) as [Hsub Hret].
  fold r in Hsub, Hret. rewrite Hv in Hret.
  destruct Hret as (props & ui' & uprops & newPages & pages & H1 & H2 & H3 & H4 & H5
                    & H6 & H7 & H8 & H9).
  exists props, ui', uprops, newPages, pages. split_and!; try done.
  cbv zeta in H9. fold callerPages in H9.
  destruct (truthy_value callerPages) eqn:Ht.
  - rewrite H9. by apply (elems_at_mono h).
  - by destruct callerPages.
Qed.

End HeapMore.

Lemma validateConfig_heap_cases_witness :
  let r := OnHeap.validateConfig auth0 (JSON_stringify env0) (VRef 1) OnHeap.heap0 in
  OnHeap.props_at OnHeap.heap0 (VRef 1) = Some OnHeap.config_props0 ∧
  r.2 = OnHeap.heap0 ∧ r.1 = Normal ().
Proof.
  intros r.
  assert (OnHeap.props_at OnHeap.heap0 (VRef 1) = Some OnHeap.config_props0) as H1
    by (vm_compute; reflexivity).
  pose proof (validateConfig_heap_cases auth0 (JSON_stringify env0) (VRef 1)
                OnHeap.heap0 OnHeap.config_props0 H1) as Hcases.
  cbv zeta in Hcases. fold r in Hcases. destruct Hcases as (Hheap & _ & Hlists).
  split; [exact H1 |]. split; [exact Hheap |].
  assert (OnHeap.config_props0 !! "lists" = Some (VRef 2)) as H2
    by (vm_compute; reflexivity).
  assert (OnHeap.props_at OnHeap.heap0 (VRef 2) = Some {[ "User" := VRef 3 ]}) as H3
    by (vm_compute; reflexivity).
  destruct (Hlists _ _ H2 H3) as [_ Hlist].
  assert (({[ "User" := VRef 3 ]} : gmap string Value) !! listKey auth0 = Some (VRef 3)) as H4
    by (vm_compute; reflexivity).
  assert (OnHeap.props_at OnHeap.heap0 (VRef 3) = Some {[ "fields" := VRef 10 ]}) as H5
    by (vm_compute; reflexivity).
  destruct (Hlist _ _ H4 H5) as [_ Hfields].
  assert (({[ "fields" := VRef 10 ]} : gmap string Value) !! "fields" = Some (VRef 10)) as H6
    by (vm_compute; reflexivity).
  assert (OnHeap.props_at OnHeap.heap0 (VRef 10) = Some {[ "email" := VRef 11 ]}) as H7
    by (vm_compute; reflexivity).
  destruct (Hfields _ _ H6 H7) as [_ Hfield].
  assert (({[ "email" := VRef 11 ]} : gmap string Value) !! identityField auth0
          = Some (VRef 11)) as H8 by (vm_compute; reflexivity).
  assert (OnHeap.props_at OnHeap.heap0 (VRef 11) = Some {[ "type" := VString "text" ]}) as H9
    by (vm_compute; reflexivity).
  exact (Hfield _ _ H8 H9).
Defined.

(** On the heap as on values: [toString] passes as a field, and
    [constructor] as a list key ends in a [TypeError]. *)
Example validateConfig_heap_inherited_names :
  OnHeap.validateConfig auth_toString (JSON_stringify env0) (VRef 1) OnHeap.heap0
    = (Normal (), OnHeap.heap0) ∧
  (OnHeap.validateConfig auth_constructor (JSON_stringify env0) (VRef 1) OnHeap.heap0).1
    = Throw (TypeError "Cannot read property of undefined").
Proof.
  split.
  - apply injective_projections; [vm_compute; reflexivity |].
    apply validateConfig_heap_unchanged.
  - vm_compute. reflexivity.
Qed.

Lemma withAuth_heap_invalid_witness :
  (∃ msg, (OnHeap.validateConfig auth0 (JSON_stringify env0) (VRef 1) OnHeap.heap_nolists).1
          = Throw (TypeError msg)) ∧
  ∃ msg, OnHeap.withAuth auth0 (JSON_stringify env0) OnHeap.fns0 (VRef 1) OnHeap.heap_nolists
         = (Throw (TypeError msg), OnHeap.heap_nolists).
Proof.
  assert ((OnHeap.validateConfig auth0 (JSON_stringify env0) (VRef 1) OnHeap.heap_nolists).1
          = Throw (TypeError "Cannot read property of undefined")) as H
    by (vm_compute; reflexivity).
  split; [by eexists |]. eexists.
  exact (withAuth_heap_invalid auth0 (JSON_stringify env0) OnHeap.fns0 (VRef 1)
           OnHeap.heap_nolists _ H).
Defined.

Lemma withItemData_heap_witness :
  OnHeap.props_at OnHeap.heap0 (VRef 7)
    = Some (list_to_map [("start", VRef 12); ("end", VRef 13); ("get", VRef 8)]) ∧
  ∃ v props,
    (OnHeap.withItemData (VRef 7) OnHeap.heap0).1 = Normal v ∧
    OnHeap.props_at (OnHeap.withItemData (VRef 7) OnHeap.heap0).2 v = Some props ∧
    props !! "start" = Some (VRef 12) ∧ props !! "end" = Some (VRef 13).
Proof.
  assert (OnHeap.props_at OnHeap.heap0 (VRef 7)
            = Some (list_to_map [("start", VRef 12); ("end", VRef 13); ("get", VRef 8)]))
    as H by (vm_compute; reflexivity).
  split; [exact H |].
  pose proof (withItemData_heap (VRef 7) OnHeap.heap0 _ H) as Hw. cbv zeta in Hw.
  destruct Hw as (v & props & get' & Hv & _ & Hp & _ & _ & _ & Hother & _).
  exists v, props. split; [exact Hv |]. split; [exact Hp |]. split.
  - rewrite (Hother "start") by discriminate. vm_compute. reflexivity.
  - rewrite (Hother "end") by discriminate. vm_compute. reflexivity.
Defined.

Lemma withAuth_heap_ui_witness :
  let r := OnHeap.withAuth auth0 (JSON_stringify env0) OnHeap.fns0 (VRef 1) OnHeap.heap0 in
  OnHeap.config_props0 !! "ui" = Some (VRef 4) ∧
  r.1 = Normal (VRef 27) ∧
  ∃ props ui' uprops newPages,
    OnHeap.props_at r.2 (VRef 27) = Some props ∧
    props !! "ui" = Some ui' ∧ OnHeap.fresh_in OnHeap.heap0 ui' ∧
    OnHeap.props_at r.2 ui' = Some uprops ∧
    uprops !! "publicPages" = Some newPages ∧
    OnHeap.elems_at r.2 newPages
      = Some ([VString "/welcome"; VString "/about"] ++ (VString <$> publicPages auth0))%list.
Proof.
  intros r.
  assert (OnHeap.props_at OnHeap.heap0 (VRef 1) = Some OnHeap.config_props0) as H1
    by (vm_compute; reflexivity).
  assert (OnHeap.config_props0 !! "lists" = Some (VRef 2)) as H2
    by (vm_compute; reflexivity).
  assert (OnHeap.props_at OnHeap.heap0 (VRef 2) = Some {[ "User" := VRef 3 ]}) as H3
    by (vm_compute; reflexivity).
  assert (OnHeap.config_props0 !! "ui" = Some (VRef 4)) as H4
    by (vm_compute; reflexivity).
  assert (r.1 = Normal (VRef 27)) as Hv by (vm_compute; reflexivity).
  pose proof (withAuth_heap_ui auth0 (JSON_stringify env0) OnHeap.fns0 OnHeap.heap0
                (VRef 1) (VRef 2) (VRef 4) _ _ H1 H2 H3 H4 eq_refl) as Hui.
  cbv zeta in Hui. fold r in Hui.
  destruct (Hui _ Hv) as (props & ui' & uprops & newPages & pages & Hp & Hu & Hf & Hup
                          & _ & Hpp & _ & Helems & Hcaller & _).
  split; [exact H4 |]. split; [exact Hv |].
  exists props, ui', uprops, newPages. split_and!; try assumption.
  rewrite Helems. f_equal. f_equal.
  assert (OnHeap.truthy_value
            (default VUndefined (OnHeap.props_at OnHeap.heap0 (VRef 4) ≫= (.!! "publicPages")))
          = true) as Ht by (vm_compute; reflexivity).
  rewrite Ht in Hcaller.
  assert (OnHeap.elems_at OnHeap.heap0
            (default VUndefined (OnHeap.props_at OnHeap.heap0 (VRef 4) ≫= (.!! "publicPages")))
          = Some [VString "/welcome"; VString "/about"]) as He by (vm_compute; reflexivity).
  rewrite He in Hcaller. by injection Hcaller.
Defined.

Lemma withAuth_heap_ui_session_witness :
  let r := OnHeap.withAuth auth0 (JSON_stringify env0) OnHeap.fns0 (VRef 1) OnHeap.heap0 in
  r.1 = Normal (VRef 27) ∧
  ∃ props ui' session',
    OnHeap.props_at r.2 (VRef 27) = Some props ∧
    props !! "ui" = Some ui' ∧ OnHeap.fresh_in OnHeap.heap0 ui' ∧
    props !! "session" = Some session' ∧ OnHeap.fresh_in OnHeap.heap0 session'.
Proof.
  intros r.
  assert (OnHeap.props_at OnHeap.heap0 (VRef 1) = Some OnHeap.config_props0) as H1
    by (vm_compute; reflexivity).
  assert (OnHeap.config_props0 !! "lists" = Some (VRef 2)) as H2
    by (vm_compute; reflexivity).
  assert (OnHeap.props_at OnHeap.heap0 (VRef 2) = Some {[ "User" := VRef 3 ]}) as H3
    by (vm_compute; reflexivity).
  assert (r.1 = Normal (VRef 27)) as Hv by (vm_compute; reflexivity).
  pose proof (withAuth_heap_ui_session auth0 (JSON_stringify env0) OnHeap.fns0 OnHeap.heap0
                (VRef 1) (VRef 2) _ _ H1 H2 H3) as Hus.
  cbv zeta in Hus. fold r in Hus.
  destruct (Hus _ Hv) as (props & ui' & session' & Hp & Hu & Hu' & Hs & Hs').
  split; [exact Hv |]. exists props, ui', session'.
  assert (OnHeap.truthy_value (default VUndefined (OnHeap.config_props0 !! "ui")) = true)
    as Htu by (vm_compute; reflexivity).
  assert (OnHeap.truthy_value (default VUndefined (OnHeap.config_props0 !! "session"))
          && truthy_opt (sessionData auth0) = true)
    as Hts by (vm_compute; reflexivity).
  rewrite Htu in Hu'. rewrite Hts in Hs'. split_and!; assumption.
Defined.
